(** * Repolinter engine: configuration normalisation, axiom resolution,
      rule dispatch and the overall verdict.

    A shallow embedding of the engine: [parseConfig], [determineTargets],
    [runRuleset] and the part of [lint] that follows configuration
    validation.

    Conventions of the embedding.
    - A JavaScript object used as a mapping is the list of its own entries
      in the order [Object.entries] enumerates them.  Keys are ordinary
      property names (neither integer-like nor ["__proto__"]), for which an
      assignment [a[k] = v] replaces the value of an existing key in place
      and appends a new key at the end.
    - An [async] function is a tree of type [Async]: it returns, throws, or
      calls a plugin and awaits the outcome.  Plugins are the environment:
      a function from the call and the state of the world to an outcome
      and a new state.
    - [Promise.all] over the callbacks of one [map] is an event loop that
      resumes every pending callback once per turn, in slot order: the
      order in which the calls are made when every plugin answers at
      once.  What is proved about a callback is proved of its tree, for
      every outcome of its calls, and so for every other order too.
      When several callbacks reject, the loop reports the fault of the
      lowest slot, the earliest one when every plugin answers at once;
      with plugins that answer later the fault of any rejected slot can
      be the one reported.
    - A plugin keeps its contract (the types of lines 316 and 332): its
      promise fulfils with a Result or rejects with a fault that has a
      [message].  [runRuleset] checks none of it; [afterRuleAwait] says
      what the callback of a rule does when [undefined] comes in their
      place. *)

From Stdlib Require Import String Ascii List Bool Arith Lia Permutation.
Import ListNotations.
Open Scope string_scope.

(** ** Strings *)

(** The double quote character, as a one-character string. *)
Definition dquote : string := String (ascii_of_nat 34) EmptyString.

(** [Array.prototype.join]. *)
Definition join (sep : string) (l : list string) : string := String.concat sep l.

(** [String.prototype.split(':')]: never empty, one more piece than there
    are separators. *)
Fixpoint split_colon (s : string) : list string :=
  match s with
  | EmptyString => [EmptyString]
  | String c s' =>
      if Ascii.eqb c ":"%char then EmptyString :: split_colon s'
      else match split_colon s' with
           | [] => [String c EmptyString]
           | piece :: rest => String c piece :: rest
           end
  end.

(** Truthiness of a string value that may be [undefined]. *)
Definition truthy (s : option string) : bool :=
  match s with
  | Some EmptyString => false
  | Some _ => true
  | None => false
  end.

(** A template literal substitution [${p}] of a string that may be
    [undefined]. *)
Definition template (p : option string) : string :=
  match p with
  | Some s => s
  | None => "undefined"
  end.

(** ** Data model *)

(** Plugin options: a JSON value. *)
#[local] Unset Elimination Schemes.
Inductive JSON : Type :=
| JNull
| JBool (b : bool)
| JNum (n : nat)
| JStr (s : string)
| JArr (items : list JSON)
| JObj (members : list (string * JSON)).
#[local] Set Elimination Schemes.

(** The empty options object [{}]. *)
Definition emptyObject : JSON := JObj [].

(** A thrown or rejected value; only its [message] is read. *)
Record Fault : Type := mkFault { fault_message : string }.

(** Modelled from the spec: one entry of a plugin Result's [targets]
    ([lib/result] is not part of the sources).  [path] may be absent. *)
Record Target : Type := mkTarget {
  path : option string;
  target_passed : bool
}.

(** Modelled from the spec: the plugin Result [{ message, targets, passed }]
    built by [new Result(message, targets, passed)] ([lib/result] is not
    part of the sources). *)
Record Result : Type := mkResult {
  message : string;
  targets : list Target;
  passed : bool
}.

(** Modelled from the spec: the canonical rule descriptor built by
    [new RuleInfo(name, level, where, ruleType, ruleConfig, fixType,
    fixConfig, policyInfo, policyUrl)] ([lib/ruleinfo] is not part of the
    sources).  Arguments that the caller leaves out are [None]. *)
Record RuleInfo : Type := mkRuleInfo {
  name : string;
  level : string;
  where_ : list string;
  ruleType : string;
  ruleConfig : option JSON;
  fixType : option string;
  fixConfig : option JSON;
  policyInfo : option string;
  policyUrl : option string
}.

(** Modelled from the spec: the four statuses of a FormatResult
    ([lib/formatresult] is not part of the sources). *)
Inductive Status : Type := ERROR | IGNORED | LINT_ONLY | LINT_AND_FIX.

Definition Status_eqb (a b : Status) : bool :=
  match a, b with
  | ERROR, ERROR | IGNORED, IGNORED
  | LINT_ONLY, LINT_ONLY | LINT_AND_FIX, LINT_AND_FIX => true
  | _, _ => false
  end.

(** Modelled from the spec: the per-rule outcome, a tagged union carrying
    the originating descriptor and an error message, an ignore reason, a
    rule Result, or a rule Result and a fix Result ([lib/formatresult] is
    not part of the sources). *)
Inductive FormatResult : Type :=
| CreateError (r : RuleInfo) (msg : string)
| CreateIgnored (r : RuleInfo) (reason : string)
| CreateLintOnly (r : RuleInfo) (lintRes : Result)
| CreateLintAndFix (r : RuleInfo) (lintRes fixRes : Result).

Definition status (f : FormatResult) : Status :=
  match f with
  | CreateError _ _ => ERROR
  | CreateIgnored _ _ => IGNORED
  | CreateLintOnly _ _ => LINT_ONLY
  | CreateLintAndFix _ _ _ => LINT_AND_FIX
  end.

Definition ruleInfo (f : FormatResult) : RuleInfo :=
  match f with
  | CreateError r _ | CreateIgnored r _
  | CreateLintOnly r _ | CreateLintAndFix r _ _ => r
  end.

(** The property [lintResult]; [None] is [undefined]. *)
Definition lintResult (f : FormatResult) : option Result :=
  match f with
  | CreateLintOnly _ res | CreateLintAndFix _ res _ => Some res
  | _ => None
  end.

Definition fixResult (f : FormatResult) : option Result :=
  match f with
  | CreateLintAndFix _ _ res => Some res
  | _ => None
  end.

(** The handle given to every plugin: the two fields that [lint] sets on a
    new [FileSystem] ([lib/file_system] is not part of the sources). *)
Record FileSystem : Type := mkFileSystem {
  targetDir : string;
  filterPaths : list string
}.

(** The second argument of [runRuleset]: the axiom results, or a
    boolean. *)
Inductive AxiomTargets : Type :=
| TBoolean (b : bool)
| TObject (entries : list (string * Result)).

(** [typeof targets !== 'boolean'] *)
Definition not_boolean (t : AxiomTargets) : bool :=
  match t with
  | TBoolean _ => false
  | TObject _ => true
  end.

(** ** Asynchronous functions and plugins *)

(** How a promise settles. *)
Inductive Settled (A : Type) : Type :=
| Fulfilled (a : A)
| Rejected (e : Fault).
Arguments Fulfilled {A} a.
Arguments Rejected {A} e.

(** A plugin call: the plugin is loaded from its registry and applied to
    these arguments. *)
Inductive Call : Type :=
| InvokeRule (type : string) (fs : FileSystem) (options : option JSON)
| InvokeFix (type : string) (fs : FileSystem) (options : option JSON)
            (fixTargets : list (option string)) (dryRun : bool)
| InvokeAxiom (axiomId : string) (fs : FileSystem).

(** The body of an [async] function. *)
Inductive Async (A : Type) : Type :=
| Return (a : A)
| Throw (e : Fault)
| Await (c : Call) (k : Settled Result -> Async A).
Arguments Return {A} a.
Arguments Throw {A} e.
Arguments Await {A} c k.

(** [hasOwnProperty] on a registry object built by [loadRules],
    [loadFixes] or [loadAxioms] from the list of plugin names. *)
Definition hasOwnProperty (registry : list string) (key : string) : bool :=
  existsb (String.eqb key) registry.

(** [Array.prototype.find] *)
Definition find_ {A : Type} (p : A -> bool) (l : list A) : option A := List.find p l.

(** [.reduce((a, c) => a.concat(c), [])] *)
Definition reduce_concat_init {A : Type} (l : list (list A)) : list A :=
  fold_left (fun a c => (a ++ c)%list) l [].

(** [.reduce((a, c) => a.concat(c))], without an initial value: a
    TypeError on the empty array. *)
Definition reduce_concat {A : Type} (l : list (list A)) : Settled (list A) :=
  match l with
  | [] => Rejected (mkFault "Reduce of empty array with no initial value")
  | first :: rest => Fulfilled (fold_left (fun a c => (a ++ c)%list) rest first)
  end.

(** Truthiness of a JSON value that may be [undefined]. *)
Definition json_truthy (j : option JSON) : bool :=
  match j with
  | None | Some JNull | Some (JBool false) | Some (JNum 0)
  | Some (JStr EmptyString) => false
  | Some _ => true
  end.

(** ** Configuration *)

(** [cfg.rule] and [cfg.fix] of a version-2 rule entry. *)
Record PluginRef : Type := mkPluginRef {
  type : string;
  options : option JSON
}.

(** One entry of the version-2 [rules] mapping. *)
Record RuleEntry : Type := mkRuleEntry {
  cfg_level : string;
  cfg_where : list string;
  cfg_rule : PluginRef;
  cfg_fix : option PluginRef;
  cfg_policyInfo : option string;
  cfg_policyUrl : option string
}.

(** A validated configuration.  [ConfigV2] is a configuration with
    [version === 2]; [ConfigLegacy] is any other one, whose [rules] maps a
    condition group to a mapping from ["ruleName:ruleType"] to the array
    [[level, options]].  [axioms], when present, maps an axiom plugin
    identifier to the name its result is reported under. *)
Inductive Config : Type :=
| ConfigV2 (rules : list (string * RuleEntry))
           (axioms : option (list (string * string)))
| ConfigLegacy (rules : list (string * list (string * (string * option JSON))))
               (axioms : option (list (string * string))).

Definition config_axioms (config : Config) : option (list (string * string)) :=
  match config with
  | ConfigV2 _ a | ConfigLegacy _ a => a
  end.

(** [cfg.fix && cfg.fix.type] *)
Definition fix_type (cfg : RuleEntry) : option string :=
  match cfg_fix cfg with
  | Some f => Some (type f)
  | None => None
  end.

(** [cfg.fix && cfg.fix.options] *)
Definition fix_options (cfg : RuleEntry) : option JSON :=
  match cfg_fix cfg with
  | Some f => options f
  | None => None
  end.

(** The descriptor of one legacy rule: [rulename.split(':')] gives the
    name and the type, [type || name] and [configray[1] || {}] fill in
    what is missing. *)
Definition legacyRule (where_key : string)
    (entry : string * (string * option JSON)) : RuleInfo :=
  let '(rulename, configray) := entry in
  let parts := split_colon rulename in
  let name_ := nth 0 parts EmptyString in
  let type_ := nth_error parts 1 in
  mkRuleInfo
    name_
    (fst configray)
    (if where_key =? "all" then [] else [where_key])
    (if truthy type_ then template type_ else name_)
    (if json_truthy (snd configray) then snd configray else Some emptyObject)
    None None None None.

(** [parseConfig] *)
Definition parseConfig (config : Config) : Settled (list RuleInfo) :=
  match config with
  | ConfigV2 rules _ =>
      Fulfilled
        (map (fun '(name_, cfg) =>
                mkRuleInfo
                  name_
                  (cfg_level cfg)
                  (cfg_where cfg)
                  (type (cfg_rule cfg))
                  (options (cfg_rule cfg))
                  (fix_type cfg)
                  (fix_options cfg)
                  (cfg_policyInfo cfg)
                  (cfg_policyUrl cfg))
             rules)
  | ConfigLegacy rules _ =>
      reduce_concat
        (map (fun '(where_key, group) => map (legacyRule where_key) group) rules)
  end.

(** ** Rule dispatch *)

(** The flat array of axiom string identifiers at the head of
    [runRuleset]. *)
Definition targetArray (targets_ : AxiomTargets) : list string :=
  match targets_ with
  | TBoolean _ => []
  | TObject entries =>
      reduce_concat_init
        (map (fun '(axiomId, paths) =>
                ([(axiomId ++ "=*")%string]
                  ++ map (fun p => (axiomId ++ "=" ++ template p)%string) paths)%list)
           (map (fun '(axiomId, res) => (axiomId, map path (targets res)))
              (filter (fun '(axiomId, res) => passed res) entries)))
  end.

(** The conditions of a rule that match no token:
    [r.where.filter(check => !targetArray.find(tar => check === tar))]. *)
Definition ignoreReasons (tokens : list string) (r : RuleInfo) : list string :=
  filter (fun check =>
            negb (truthy (find_ (fun tar => String.eqb check tar) tokens)))
         (where_ r).

Section Dispatch.

(** The names listed by [rules/rules] and [fixes/fixes], which are not
    part of the sources: the keys of the registries [allRules] and
    [allFixes]. *)
Variables (allRules allFixes : list string).

Variables (fileSystem : FileSystem) (dryRun : bool).

(** The callback of [ruleset.map] from the computation of the fix
    targets on, once the rule plugin has returned [result].  The fix
    plugin fulfils with a Result or rejects with a fault that has a
    [message] (the type of line 332). *)
Definition fixStage (r : RuleInfo) (result : Result) : Async FormatResult :=
  let fixTargets :=
    if negb (passed result)
    then map path
           (filter (fun t => negb (target_passed t) && truthy (path t))
                   (targets result))
    else [] in
  if negb (truthy (fixType r)) || passed result
  then Return (CreateLintOnly r result)
  else if negb (hasOwnProperty allFixes (template (fixType r)))
  then Return (CreateError r (template (fixType r) ++ " is not a valid fix"))
  else
    Await (InvokeFix (template (fixType r)) fileSystem (fixConfig r)
                     fixTargets dryRun)
      (fun outcome =>
         match outcome with
         | Rejected e =>
             Return (CreateError r
                       (template (fixType r) ++ " threw an error: "
                          ++ fault_message e))
         | Fulfilled fixresult =>
             Return (CreateLintAndFix r result fixresult)
         end).

(** The callback from the registry check on: the rule plugin runs
    inside [try], a fault becomes an ERROR.  The rule plugin fulfils
    with a Result or rejects with a fault that has a [message] (the type
    of line 316); [afterRuleAwait] has [undefined] in their place too. *)
Definition lintStage (r : RuleInfo) : Async FormatResult :=
  if negb (hasOwnProperty allRules (ruleType r))
  then Return (CreateError r (ruleType r ++ " is not a valid rule"))
  else
    Await (InvokeRule (ruleType r) fileSystem (ruleConfig r))
      (fun outcome =>
         match outcome with
         | Rejected e =>
             Return (CreateError r
                       (ruleType r ++ " threw an error: " ++ fault_message e))
         | Fulfilled result => fixStage r result
         end).

(** The whole callback of [ruleset.map] in [runRuleset]. *)
Definition ruleCallback (targets_ : AxiomTargets) (tokens : list string)
    (r : RuleInfo) : Async FormatResult :=
  if level r =? "off"
  then Return (CreateIgnored r
                 ("ignored because level is " ++ dquote ++ "off" ++ dquote))
  else if not_boolean targets_ && (0 <? length (ignoreReasons tokens r))%nat
  then Return (CreateIgnored r
                 ("ignored due to unsatisfied condition(s): " ++ dquote
                    ++ join (dquote ++ ", " ++ dquote) (ignoreReasons tokens r)
                    ++ dquote))
  else lintStage r.

(** The promises handed to [Promise.all] by [runRuleset]. *)
Definition rulePromises (ruleset : list RuleInfo) (targets_ : AxiomTargets)
    : list (Async FormatResult) :=
  map (ruleCallback targets_ (targetArray targets_)) ruleset.

End Dispatch.

(** ** The event loop *)

Section EventLoop.

(** The environment: whatever the plugins read and change, and how each
    plugin call settles in a given state. *)
Variable World : Type.
Variable plugin : Call -> World -> Settled Result * World.

(** The state of a run: the world, and the calls made so far, oldest
    first. *)
Definition Machine : Type := (World * list Call)%type.

(** A pending callback reaches its [await]: the plugin is called and the
    callback is left at what follows. *)
Definition resume {A : Type} (p : Async A) (m : Machine) : Async A * Machine :=
  match p with
  | Await c k =>
      let (outcome, w) := plugin c (fst m) in
      (k outcome, (w, (snd m ++ [c])%list))
  | _ => (p, m)
  end.

(** One turn: every callback is resumed once, in slot order. *)
Fixpoint turn {A : Type} (ps : list (Async A)) (m : Machine)
    : list (Async A) * Machine :=
  match ps with
  | [] => ([], m)
  | p :: rest =>
      let (p', m1) := resume p m in
      let (rest', m2) := turn rest m1 in
      (p' :: rest', m2)
  end.

Definition settled {A : Type} (p : Async A) : bool :=
  match p with
  | Await _ _ => false
  | _ => true
  end.

Fixpoint first_rejection {A : Type} (ps : list (Async A)) : option Fault :=
  match ps with
  | [] => None
  | Throw e :: _ => Some e
  | _ :: rest => first_rejection rest
  end.

Fixpoint values {A : Type} (ps : list (Async A)) : list A :=
  match ps with
  | [] => []
  | Return a :: rest => a :: values rest
  | _ :: rest => values rest
  end.

(** Turns are taken until every callback has settled.  The promise of
    [Promise.all] rejects with the earliest rejection, and otherwise
    fulfils with the values in slot order.  Among the rejections of one
    turn the earliest is that of the lowest slot, every plugin answering
    at once.  [None]: callbacks are still pending after [turns] turns. *)
Fixpoint event_loop {A : Type} (turns : nat) (rejection : option Fault)
    (ps : list (Async A)) (m : Machine) : option (Settled (list A) * Machine) :=
  let rejection' :=
    match rejection with
    | Some e => Some e
    | None => first_rejection ps
    end in
  if forallb settled ps
  then Some (match rejection' with
             | Some e => Rejected e
             | None => Fulfilled (values ps)
             end, m)
  else match turns with
       | 0 => None
       | S n => let (ps', m') := turn ps m in event_loop n rejection' ps' m'
       end.

(** [Promise.all] *)
Definition Promise_all {A : Type} (turns : nat) (ps : list (Async A))
    (m : Machine) : option (Settled (list A) * Machine) :=
  event_loop turns None ps m.

(** [runRuleset] *)
Definition runRuleset (turns : nat) (allRules allFixes : list string)
    (ruleset : list RuleInfo) (targets_ : AxiomTargets)
    (fileSystem : FileSystem) (dryRun : bool) (m : Machine)
    : option (Settled (list FormatResult) * Machine) :=
  Promise_all turns (rulePromises allRules allFixes fileSystem dryRun ruleset targets_) m.

(** ** Axiom resolution *)

(** The callback of [Object.entries(axiomconfig).map]: nothing catches a
    fault of the axiom plugin. *)
Definition axiomCallback (allAxioms : list string) (fs : FileSystem)
    (entry : string * string) : Async (string * Result) :=
  let '(axiomId, axiomName) := entry in
  if negb (hasOwnProperty allAxioms axiomId)
  then Return (axiomName, mkResult ("invalid axiom name " ++ axiomId) [] false)
  else
    Await (InvokeAxiom axiomId fs)
      (fun outcome =>
         match outcome with
         | Fulfilled res => Return (axiomName, res)
         | Rejected e => Throw e
         end).

(** The assignment [a[k] = v] on an object. *)
Fixpoint assign {V : Type} (a : list (string * V)) (k : string) (v : V)
    : list (string * V) :=
  match a with
  | [] => [(k, v)]
  | (k', v') :: rest =>
      if String.eqb k' k then (k', v) :: rest else (k', v') :: assign rest k v
  end.

(** [ruleresults.reduce((a, [k, v]) => { a[k] = v; return a }, {})] *)
Definition flatten (ruleresults : list (string * Result)) : list (string * Result) :=
  fold_left (fun a '(k, v) => assign a k v) ruleresults [].

(** [determineTargets] *)
Definition determineTargets (turns : nat) (allAxioms : list string)
    (axiomconfig : list (string * string)) (fs : FileSystem) (m : Machine)
    : option (Settled (list (string * Result)) * Machine) :=
  match Promise_all turns (map (axiomCallback allAxioms fs) axiomconfig) m with
  | None => None
  | Some (Rejected e, m') => Some (Rejected e, m')
  | Some (Fulfilled ruleresults, m') => Some (Fulfilled (flatten ruleresults), m')
  end.

(** ** The overall verdict *)

(** The predicate given to [result.find] in [lint].  Reading [passed]
    of an [undefined] [lintResult] is a TypeError. *)
Definition breaksRun (r : FormatResult) : Settled bool :=
  if Status_eqb (status r) ERROR then Fulfilled true
  else if negb (Status_eqb (status r) IGNORED)
          && (level (ruleInfo r) =? "error")
  then match lintResult r with
       | Some res => Fulfilled (negb (passed res))
       | None => Rejected (mkFault "Cannot read property 'passed' of undefined")
       end
  else Fulfilled false.

(** [Array.prototype.find] with a predicate that may throw. *)
Fixpoint find_throwing {A : Type} (p : A -> Settled bool) (l : list A)
    : Settled (option A) :=
  match l with
  | [] => Fulfilled None
  | x :: rest =>
      match p x with
      | Rejected e => Rejected e
      | Fulfilled true => Fulfilled (Some x)
      | Fulfilled false => find_throwing p rest
      end
  end.

(** [!result.find(...)]: an object is truthy, [undefined] is not. *)
Definition overallPassed (result : list FormatResult) : Settled bool :=
  match find_throwing breaksRun result with
  | Rejected e => Rejected e
  | Fulfilled (Some _) => Fulfilled false
  | Fulfilled None => Fulfilled true
  end.

(** The report of [lint], without the echoed parameters. *)
Record LintResult : Type := mkLintResult {
  lint_passed : bool;
  errored : bool;
  results : list FormatResult;
  lint_targets : list (string * Result)
}.

(** [lint], from the validated configuration on. *)
Definition lint (turns : nat) (allRules allFixes allAxioms : list string)
    (fileSystem : FileSystem) (ruleset : Config) (dryRun : bool) (m : Machine)
    : option (Settled LintResult * Machine) :=
  match parseConfig ruleset with
  | Rejected e => Some (Rejected e, m)
  | Fulfilled configParsed =>
      match
        match config_axioms ruleset with
        | Some axiomconfig => determineTargets turns allAxioms axiomconfig fileSystem m
        | None => Some (Fulfilled [], m)
        end
      with
      | None => None
      | Some (Rejected e, m1) => Some (Rejected e, m1)
      | Some (Fulfilled targetObj, m1) =>
          match runRuleset turns allRules allFixes configParsed
                  (TObject targetObj) fileSystem dryRun m1 with
          | None => None
          | Some (Rejected e, m2) => Some (Rejected e, m2)
          | Some (Fulfilled result, m2) =>
              match overallPassed result with
              | Rejected e => Some (Rejected e, m2)
              | Fulfilled passed_ =>
                  Some (Fulfilled (mkLintResult passed_ false result targetObj), m2)
              end
          end
      end
  end.

End EventLoop.

Arguments resume {World} plugin {A} p m.
Arguments turn {World} plugin {A} ps m.
Arguments event_loop {World} plugin {A} turns rejection ps m.
Arguments Promise_all {World} plugin {A} turns ps m.
Arguments runRuleset {World} plugin turns allRules allFixes ruleset targets_ fileSystem dryRun m.
Arguments determineTargets {World} plugin turns allAxioms axiomconfig fs m.
Arguments lint {World} plugin turns allRules allFixes allAxioms fileSystem ruleset dryRun m.

(** ** A concrete environment, for the examples

    The world counts the plugin calls made.  The rule plugin ["file-existence"]
    reports two failing targets and one passing one, ["broken"] throws, the
    fix plugin ["file-create"] succeeds and ["fix-broken"] throws, the axiom
    plugin ["linguist"] reports [a.js] and ["licensee"] throws. *)
Module Demo.

Definition fs : FileSystem := mkFileSystem "/repo" [].

Definition lintFailure : Result :=
  mkResult "missing files"
    [mkTarget (Some "LICENSE") false; mkTarget (Some "README.md") true;
     mkTarget None false; mkTarget (Some "") false;
     mkTarget (Some "NOTICE") false]
    false.

Definition languages : Result :=
  mkResult "" [mkTarget (Some "a.js") true] true.

Definition plugin (c : Call) (w : nat) : Settled Result * nat :=
  match c with
  | InvokeRule t _ _ =>
      if t =? "file-existence" then (Fulfilled lintFailure, S w)
      else if t =? "always-pass" then (Fulfilled (mkResult "ok" [] true), S w)
      else (Rejected (mkFault "boom"), S w)
  | InvokeFix t _ _ fixTargets _ =>
      if t =? "file-create"
      then (Fulfilled (mkResult "created" (map (fun p => mkTarget p true) fixTargets) true), S w)
      else (Rejected (mkFault "disk full"), S w)
  | InvokeAxiom a _ =>
      if a =? "linguist" then (Fulfilled languages, S w)
      else (Rejected (mkFault "licensee not installed"), S w)
  end.

Definition allRules : list string := ["file-existence"; "always-pass"; "broken"].
Definition allFixes : list string := ["file-create"; "fix-broken"].
Definition allAxioms : list string := ["linguist"; "licensee"].

Definition rule (name_ level_ : string) (where__ : list string)
    (ruleType_ : string) (fixType_ : option string) : RuleInfo :=
  mkRuleInfo name_ level_ where__ ruleType_ (Some emptyObject) fixType_
             None None None.

End Demo.

(** ** Specification-side notions

    What an asynchronous function can return. *)

(** [may_return p a]: for some outcomes of the plugin calls it makes, [p]
    returns [a]. *)
Inductive may_return {A : Type} : Async A -> A -> Prop :=
| may_return_now (a : A) : may_return (Return a) a
| may_return_later (c : Call) (k : Settled Result -> Async A)
    (outcome : Settled Result) (a : A) :
    may_return (k outcome) a -> may_return (Await c k) a.

(** [returns_within n p]: whatever the outcomes of its plugin calls, [p]
    returns, never throws, and awaits at most [n] times. *)
Inductive returns_within {A : Type} : nat -> Async A -> Prop :=
| returns_now (n : nat) (a : A) : returns_within n (Return a)
| returns_later (n : nat) (c : Call) (k : Settled Result -> Async A) :
    (forall outcome, returns_within n (k outcome)) ->
    returns_within (S n) (Await c k).

(** The tokens of one axiom result, in the words of the specification:
    nothing when the result did not pass, otherwise ["<name>=*"] and one
    ["<name>=<path>"] per target, whatever the target's own flag. *)
Definition spec_tokens (entry : string * Result) : list string :=
  let (axiomName, res) := entry in
  if passed res
  then (axiomName ++ "=*")
         :: map (fun t => axiomName ++ "=" ++ template (path t)) (targets res)
  else [].

(** The unsatisfied conditions, in the words of the specification: the
    conditions of [where] that are not in the token set, in order. *)
Definition spec_unsatisfied (tokens : list string) (conditions : list string)
    : list string :=
  filter (fun cond => negb (existsb (String.eqb cond) tokens)) conditions.

(** The two reasons of an IGNORED result. *)
Definition reasonOff : string :=
  "ignored because level is " ++ dquote ++ "off" ++ dquote.

Definition reasonUnsatisfied (conditions : list string) : string :=
  "ignored due to unsatisfied condition(s): "
    ++ dquote ++ join (dquote ++ ", " ++ dquote) conditions ++ dquote.

(** What makes a run fail, in the words of the specification: the entry is
    an ERROR, or it is not IGNORED, its rule has level ["error"] and its
    lint Result did not pass. *)
Definition spec_breaks (f : FormatResult) : Prop :=
  status f = ERROR
  \/ (status f <> IGNORED
      /\ level (ruleInfo f) = "error"
      /\ exists res, lintResult f = Some res /\ passed res = false).

(** An entry that is ignored, or that is no ERROR and whose rule is not at
    level ["error"] (a warning-level rule, passed or failed). *)
Definition spec_harmless (f : FormatResult) : Prop :=
  status f = IGNORED \/ (status f <> ERROR /\ level (ruleInfo f) <> "error").

(** One resumption leaves a settled callback as it is and moves a pending
    one past its [await]. *)
Inductive steps_to {A : Type} : Async A -> Async A -> Prop :=
| steps_stay (p : Async A) : settled p = true -> steps_to p p
| steps_past (c : Call) (k : Settled Result -> Async A) (outcome : Settled Result) :
    steps_to (Await c k) (k outcome).

(** A rule that gets past the two gates of the callback: its level is not
    ["off"] and, when the axiom results are an object, each of its
    conditions is a token. *)
Definition dispatched (targets_ : AxiomTargets) (r : RuleInfo) : Prop :=
  level r <> "off"
  /\ (not_boolean targets_ = true ->
      forall cond, In cond (where_ r) -> In cond (targetArray targets_)).

(** The paths handed to a fix, in the words of the specification: the
    paths of the targets that did not pass and have a non-empty path. *)
Definition spec_fixTargets (result : Result) : list (option string) :=
  map path
    (filter (fun t =>
               negb (target_passed t)
               && match path t with
                  | Some p => negb (p =? "")
                  | None => false
                  end)
            (targets result)).

(** The property [a[k]] of an object; [None] is [undefined]. *)
Fixpoint property {V : Type} (a : list (string * V)) (k : string) : option V :=
  match a with
  | [] => None
  | (k', v) :: rest => if String.eqb k' k then Some v else property rest k
  end.

(** The Result given to an axiom identifier that is not registered. *)
Definition invalidAxiom (axiomId : string) : Result :=
  mkResult ("invalid axiom name " ++ axiomId) [] false.

(** The axiom entries one after the other: the name of each entry with how
    its resolution settles.  The plugin of each registered identifier is
    called once, in the order of the entries; an identifier that is not
    registered is given [invalidAxiom], without a call. *)
Fixpoint axiomOutcomes {World : Type}
    (plugin : Call -> World -> Settled Result * World)
    (allAxioms : list string) (fs : FileSystem)
    (axiomconfig : list (string * string)) (m : Machine World)
    : list (string * Settled Result) * Machine World :=
  match axiomconfig with
  | [] => ([], m)
  | (axiomId, axiomName) :: rest =>
      if hasOwnProperty allAxioms axiomId
      then
        let (outcome, w) := plugin (InvokeAxiom axiomId fs) (fst m) in
        let (outcomes, m') :=
          axiomOutcomes plugin allAxioms fs rest
            (w, (snd m ++ [InvokeAxiom axiomId fs])%list) in
        ((axiomName, outcome) :: outcomes, m')
      else
        let (outcomes, m') := axiomOutcomes plugin allAxioms fs rest m in
        ((axiomName, Fulfilled (invalidAxiom axiomId)) :: outcomes, m')
  end.

(** The fault of the first entry that did not resolve. *)
Fixpoint first_fault (outcomes : list (string * Settled Result)) : option Fault :=
  match outcomes with
  | [] => None
  | (_, Rejected e) :: _ => Some e
  | (_, Fulfilled _) :: rest => first_fault rest
  end.

(** The named Results of the entries that resolved. *)
Fixpoint resolved (outcomes : list (string * Settled Result))
    : list (string * Result) :=
  match outcomes with
  | [] => []
  | (axiomName, Fulfilled res) :: rest => (axiomName, res) :: resolved rest
  | (_, Rejected _) :: rest => resolved rest
  end.

(** How the callback of an axiom entry stands once its outcome is known. *)
Definition settle (entry : string * Settled Result) : Async (string * Result) :=
  match entry with
  | (axiomName, Fulfilled res) => Return (axiomName, res)
  | (_, Rejected e) => Throw e
  end.


(** ** Notions for the further properties *)

(** [makes_only P n p]: whatever the outcomes of its calls, [p] makes at
    most [n] plugin calls, and each of them satisfies [P]. *)
Inductive makes_only {A : Type} (P : Call -> Prop) : nat -> Async A -> Prop :=
| makes_Return (n : nat) (a : A) : makes_only P n (Return a)
| makes_Throw (n : nat) (e : Fault) : makes_only P n (Throw e)
| makes_Await (n : nat) (c : Call) (k : Settled Result -> Async A) :
    P c -> (forall outcome, makes_only P n (k outcome)) ->
    makes_only P (S n) (Await c k).

(** The rules whose plugin [runRuleset] calls: the level is not ["off"],
    the gate of the conditions is open, and the type is registered. *)
Definition reachesPlugin (allRules : list string) (targets_ : AxiomTargets)
    (r : RuleInfo) : bool :=
  negb (level r =? "off")
  && negb (not_boolean targets_
           && (0 <? length (ignoreReasons (targetArray targets_) r))%nat)
  && hasOwnProperty allRules (ruleType r).

(** The call of the plugin of a rule. *)
Definition ruleCall (fileSystem : FileSystem) (r : RuleInfo) : Call :=
  InvokeRule (ruleType r) fileSystem (ruleConfig r).

(** A call of a registered fix plugin with this file system and this
    dry-run flag, on paths that are present and not empty. *)
Definition fixCallOf (allFixes : list string) (fileSystem : FileSystem)
    (dryRun : bool) (c : Call) : Prop :=
  match c with
  | InvokeFix t fs _ fixTargets d =>
      In t allFixes /\ fs = fileSystem /\ d = dryRun
      /\ Forall (fun p => exists s, p = Some s /\ s <> "") fixTargets
  | _ => False
  end.

(** The gate of [runRuleset], in words: the rule is ["off"], or the axiom
    results are an object and one of the conditions is no token. *)
Definition gated (targets_ : AxiomTargets) (r : RuleInfo) : Prop :=
  level r = "off"
  \/ (not_boolean targets_ = true
      /\ exists cond, In cond (where_ r) /\ ~ In cond (targetArray targets_)).

(** A string without the character [c]. *)
Definition lacks (c : ascii) (s : string) : Prop :=
  forall i, String.get i s <> Some c.

(** ** The plugin registries *)

(** The thunk [() => require(path.resolve(__dirname, directory, file))]
    stored in a registry. *)
Record Loader : Type := mkLoader {
  directory : string;
  file : string
}.

(** [names.map(f => [f, () => require(path.resolve(__dirname, directory,
    f))]).reduce((p, [name, require]) => { p[name] = require; return p },
    {})]: the body shared by [loadRules], [loadFixes] and [loadAxioms]. *)
Definition loadRegistry (directory_ : string) (names : list string)
    : list (string * Loader) :=
  fold_left (fun p '(name_, require) => assign p name_ require)
            (map (fun f => (f, mkLoader directory_ f)) names)
            [].

(** [loadRules], on the names listed by [rules/rules]. *)
Definition loadRules (Rules : list string) : list (string * Loader) :=
  loadRegistry "./rules/" Rules.

(** [loadFixes], on the names listed by [fixes/fixes]. *)
Definition loadFixes (Fixes : list string) : list (string * Loader) :=
  loadRegistry "./fixes/" Fixes.

(** [loadAxioms], on the names listed by [axioms/axioms]. *)
Definition loadAxioms (Axioms : list string) : list (string * Loader) :=
  loadRegistry "./axioms/" Axioms.

(** [Object.prototype.hasOwnProperty.call(object, key)] *)
Definition hasOwn {V : Type} (object : list (string * V)) (key : string) : bool :=
  match property object key with
  | Some _ => true
  | None => false
  end.

(** ** Validation and loading of the configuration *)

Definition newline : string := String (ascii_of_nat 10) EmptyString.
Definition tab : string := String (ascii_of_nat 9) EmptyString.

(** One entry of [validator.errors]. *)
Record AjvError : Type := mkAjvError {
  dataPath : string;
  ajv_message : string
}.

(** What a compiled validator answers on a value: the boolean it returns
    and the [errors] it leaves. *)
Record Validation : Type := mkValidation {
  valid : bool;
  errors : list AjvError
}.

(** The result of [validateConfig]: [{ passed, error? }]. *)
Record ValidationResult : Type := mkValidationResult {
  val_passed : bool;
  val_error : option string
}.

(** [Promise.all] over promises that settle without calling a plugin: the
    first rejection in slot order, or all the values. *)
Fixpoint gather {A : Type} (promises : list (Settled A)) : Settled (list A) :=
  match promises with
  | [] => Fulfilled []
  | Rejected e :: _ => Rejected e
  | Fulfilled a :: rest =>
      match gather rest with
      | Rejected e => Rejected e
      | Fulfilled l => Fulfilled (a :: l)
      end
  end.

(** Reading the property [key] of a value that may be [undefined]: a
    TypeError on [undefined] and [null], the member of an object, and
    [undefined] on any other value.  It is read for ["formatOptions"]
    only, a name under which nothing is inherited. *)
Definition getProperty (v : option JSON) (key : string) : Settled (option JSON) :=
  match v with
  | None => Rejected (mkFault ("Cannot read property '" ++ key ++ "' of undefined"))
  | Some JNull => Rejected (mkFault ("Cannot read property '" ++ key ++ "' of null"))
  | Some (JObj members) => Fulfilled (property members key)
  | Some _ => Fulfilled None
  end.

(** [a || b] on paths that may be [null]. *)
Definition or_else (a b : option string) : option string :=
  if truthy a then a else b.

(** The report that [lint] returns when the configuration cannot be
    loaded or is not valid. *)
Record ErrorReport : Type := mkErrorReport {
  params_targetDir : string;
  params_filterPaths : list string;
  params_rulesetPath : option string;
  params_ruleset : option JSON;
  report_passed : bool;
  report_errored : bool;
  errMsg : option string;
  report_results : list FormatResult;
  report_targets : list (string * Result);
  formatOptions : option JSON
}.

(** Where the head of [lint] leaves the run: it goes on to [parseConfig]
    with the ruleset and the path it was read from, or it returns a
    report. *)
Inductive Loaded : Type :=
| Continue (rulesetPath : option string) (ruleset : option JSON)
| Report (report : ErrorReport).

Section Loading.

(** The environment of validation.  [readJson dir file] is
    [jsonfile.readFile] on the file [file] of the directory [dir] of the
    package; [addSchemas schemas] is a new [Ajv] to which the [schemas]
    are added in order, and [compile ajv schema] is its [compile]: a
    validator, or a fault.  Neither [Ajv] nor the schema files are part
    of the sources. *)
Variable readJson : string -> string -> Settled JSON.
Variable Ajv : Type.
Variable addSchemas : list JSON -> Settled Ajv.
Variable compile : Ajv -> JSON -> Settled (option JSON -> Validation).

(** The names listed by [rules/rules] and [fixes/fixes]. *)
Variables (Rules Fixes : list string).

(** One line of the error text of [validateConfig]. *)
Definition errorLine (e : AjvError) : string :=
  tab ++ "configuration" ++ dataPath e ++ " " ++ ajv_message e.

(** [validateConfig] *)
Definition validateConfig (config : option JSON) : Settled ValidationResult :=
  let parsedRuleSchemas :=
    gather (map (fun rs => readJson "rules" (rs ++ "-config.json")) Rules) in
  let parsedFixSchemas :=
    gather (map (fun f => readJson "fixes" (f ++ "-config.json")) Fixes) in
  match gather [parsedFixSchemas; parsedRuleSchemas] with
  | Rejected e => Rejected e
  | Fulfilled both =>
      let allSchemas := reduce_concat_init both in
      match addSchemas allSchemas with
      | Rejected e => Rejected e
      | Fulfilled ajvProps =>
          match readJson "rulesets" "schema.json" with
          | Rejected e => Rejected e
          | Fulfilled schema =>
              match compile ajvProps schema with
              | Rejected e => Rejected e
              | Fulfilled validator =>
                  if negb (valid (validator config))
                  then Fulfilled
                         (mkValidationResult false
                            (Some ("Configuration validation failed with errors: "
                                     ++ newline
                                     ++ join newline
                                          (map errorLine
                                               (errors (validator config))))))
                  else Fulfilled (mkValidationResult true None)
              end
          end
      end
  end.

(** The environment of loading: [path.resolve] and [path.extname],
    [findConfig name { cwd }], the path of the default ruleset of the
    package, [fs.promises.readFile], the two parsers, and [toString] on a
    thrown value. *)
Variable resolve : string -> string -> string.
Variable extname : string -> string.
Variable findConfig : string -> string -> option string.
Variable defaultRuleset : string.
Variable readFile : string -> Settled string.
Variables (safeLoad JSON_parse : string -> Settled (option JSON)).
Variable toString : Fault -> string.

(** The path of the ruleset: the given one, resolved against the target
    directory; for a ruleset that is not given, the first configuration
    file found, or the default one; [None], that is [null], for a ruleset
    object. *)
Definition rulesetPathOf (targetDir_ : string) (ruleset : JSON) : option string :=
  match ruleset with
  | JStr s => Some (resolve targetDir_ s)
  | _ =>
      if negb (json_truthy (Some ruleset))
      then
        or_else (findConfig "repolint.json" targetDir_)
          (or_else (findConfig "repolint.yaml" targetDir_)
             (or_else (findConfig "repolint.yml" targetDir_)
                (or_else (findConfig "repolinter.json" targetDir_)
                   (or_else (findConfig "repolinter.yaml" targetDir_)
                      (or_else (findConfig "repolinter.yml" targetDir_)
                         (Some defaultRuleset))))))
      else None
  end.

(** The body of the [try] of [lint]: the file is read, then parsed by the
    parser of its extension. *)
Definition readRuleset (rulesetPath : string) : Settled (option JSON) :=
  let extension := extname rulesetPath in
  match readFile rulesetPath with
  | Rejected e => Rejected e
  | Fulfilled file_ =>
      if (extension =? ".yaml") || (extension =? ".yml")
      then safeLoad file_
      else JSON_parse file_
  end.

(** The report of a failure, as both returns of the head of [lint] build
    it: [formatOptions] is read from the ruleset last. *)
Definition errorReport (targetDir_ : string) (filterPaths_ : list string)
    (rulesetPath : option string) (ruleset : option JSON) (msg : option string)
    : Settled Loaded :=
  match getProperty ruleset "formatOptions" with
  | Rejected e => Rejected e
  | Fulfilled options_ =>
      Fulfilled (Report (mkErrorReport targetDir_ filterPaths_ rulesetPath ruleset
                           false true msg [] [] options_))
  end.

(** [lint] up to the validation of the configuration.  The third argument
    is [null] when it is left out. *)
Definition lintHead (targetDir_ : string) (filterPaths_ : list string)
    (ruleset : JSON) : Settled Loaded :=
  let rulesetPath := rulesetPathOf targetDir_ ruleset in
  match
    match rulesetPath with
    | Some p =>
        match readRuleset p with
        | Rejected e =>
            errorReport targetDir_ filterPaths_ rulesetPath (Some ruleset)
              (Some (toString e))
        | Fulfilled loaded => Fulfilled (Continue rulesetPath loaded)
        end
    | None => Fulfilled (Continue rulesetPath (Some ruleset))
    end
  with
  | Fulfilled (Continue _ ruleset') =>
      match validateConfig ruleset' with
      | Rejected e => Rejected e
      | Fulfilled val =>
          if negb (val_passed val)
          then errorReport targetDir_ filterPaths_ rulesetPath ruleset' (val_error val)
          else Fulfilled (Continue rulesetPath ruleset')
      end
  | settled_ => settled_
  end.

End Loading.

Arguments validateConfig readJson {Ajv} addSchemas compile Rules Fixes config.
Arguments lintHead readJson {Ajv} addSchemas compile Rules Fixes resolve extname
  findConfig defaultRuleset readFile safeLoad JSON_parse toString
  targetDir_ filterPaths_ ruleset.

(** The configuration files that [lint] looks for, in its order. *)
Definition candidates : list string :=
  ["repolint.json"; "repolint.yaml"; "repolint.yml";
   "repolinter.json"; "repolinter.yaml"; "repolinter.yml"].

(** ** A concrete environment of loading, for the examples

    The repository [/repo] holds [repolinter.yaml] and [repolinter.yml],
    the repository [/bad] holds a [repolint.json] that cannot be parsed;
    the file [broken.json] cannot be parsed and [missing.json] cannot be
    read.  The validator accepts objects only and reports two errors on
    any other value.  The schema of every plugin can be read. *)
Module DemoLoading.

Definition readJson (dir file_ : string) : Settled JSON := Fulfilled (JStr file_).

Definition addSchemas (schemas : list JSON) : Settled (list JSON) := Fulfilled schemas.

Definition compile (ajv : list JSON) (schema : JSON)
    : Settled (option JSON -> Validation) :=
  Fulfilled (fun config =>
               match config with
               | Some (JObj _) => mkValidation true []
               | _ => mkValidation false
                        [mkAjvError "" "should be object";
                         mkAjvError ".rules" "is required"]
               end).

Definition resolve (dir p : string) : string := dir ++ "/" ++ p.

Definition extname (p : string) : string :=
  if (p =? "/repo/repolinter.yaml") then ".yaml"
  else if (p =? "/repo/repolinter.yml") then ".yml"
  else ".json".

Definition findConfig (name_ cwd : string) : option string :=
  if cwd =? "/bad"
  then if name_ =? "repolint.json" then Some "/bad/repolint.json" else None
  else if (name_ =? "repolinter.yaml") || (name_ =? "repolinter.yml")
  then Some (cwd ++ "/" ++ name_)
  else None.

Definition readFile (p : string) : Settled string :=
  if p =? "/repo/missing.json"
  then Rejected (mkFault "ENOENT: no such file or directory")
  else Fulfilled p.

Definition safeLoad (text : string) : Settled (option JSON) :=
  Fulfilled (Some (JObj [("rules", JObj [])])).

Definition JSON_parse (text : string) : Settled (option JSON) :=
  if (text =? "/repo/broken.json") || (text =? "/bad/repolint.json")
  then Rejected (mkFault "Unexpected token } in JSON at position 1")
  else Fulfilled (Some (JNum 7)).

Definition toString (e : Fault) : string := "Error: " ++ fault_message e.

Definition lintHead : string -> list string -> JSON -> Settled Loaded :=
  lintHead readJson addSchemas compile ["file-existence"] ["file-create"]
    resolve extname findConfig "/pkg/rulesets/default.json" readFile
    safeLoad JSON_parse toString.

End DemoLoading.

(** ** Further specification-side notions *)

(** [answers plugin p a]: [p] returns [a] when each of its calls gets the
    outcome [plugin] gives to that call in some state of the world. *)
Inductive answers {World A : Type}
    (plugin : Call -> World -> Settled Result * World) : Async A -> A -> Prop :=
| answers_now (a : A) : answers plugin (Return a) a
| answers_later (c : Call) (k : Settled Result -> Async A) (w : World) (a : A) :
    answers plugin (k (fst (plugin c w))) a -> answers plugin (Await c k) a.

(** The rule entries of a legacy configuration, each with the key of its
    own group: group after group and, in a group, rule after rule. *)
Definition legacyEntries
    (rules : list (string * list (string * (string * option JSON))))
    : list (string * (string * (string * option JSON))) :=
  flat_map (fun g => map (pair (fst g)) (snd g)) rules.

(** ** A rule plugin that does not keep its contract

    How the promise of a rule plugin settles when nothing is assumed of
    the plugin: [None] is [undefined], in place of the Result or of the
    value thrown. *)
Inductive RawSettled : Type :=
| RawFulfilled (value : option Result)
| RawRejected (reason : option Fault).

(** The callback of [ruleset.map] from the [await] of line 319 on.  The
    handler of line 320 reads [e.message] and line 324, outside the
    [try], reads [result.passed]: on [undefined] either one throws a
    TypeError that nothing catches, and the callback rejects. *)
Definition afterRuleAwait (allFixes : list string) (fileSystem : FileSystem)
    (dryRun : bool) (r : RuleInfo) (raw : RawSettled) : Async FormatResult :=
  match raw with
  | RawRejected (Some e) =>
      Return (CreateError r
                (ruleType r ++ " threw an error: " ++ fault_message e))
  | RawRejected None =>
      Throw (mkFault "Cannot read property 'message' of undefined")
  | RawFulfilled (Some result) => fixStage allFixes fileSystem dryRun r result
  | RawFulfilled None =>
      Throw (mkFault "Cannot read property 'passed' of undefined")
  end.
(** * Properties *)

(** ** What an asynchronous function can return *)

Create HintDb async.
#[local] Hint Constructors may_return returns_within : async.

Lemma may_return_Return {A : Type} (a b : A) :
  may_return (Return a) b -> b = a.
Proof. intros H; inversion H; reflexivity. Qed.

Lemma returns_within_S {A : Type} (n : nat) (p : Async A) :
  returns_within n p -> returns_within (S n) p.
Proof.
  intros H; induction H; auto with async.
Qed.

Lemma returns_within_le {A : Type} (n m : nat) (p : Async A) :
  n <= m -> returns_within n p -> returns_within m p.
Proof.
  induction 1; auto using returns_within_S.
Qed.

(** ** Strings and tokens *)

Lemma hasOwnProperty_In (registry : list string) (key : string) :
  hasOwnProperty registry key = true <-> In key registry.
Proof.
  unfold hasOwnProperty; rewrite existsb_exists; split.
  - intros (x & Hin & Heq); apply String.eqb_eq in Heq; subst; exact Hin.
  - intros Hin; exists key; split; [exact Hin | apply String.eqb_refl].
Qed.

Lemma fold_left_concat {A : Type} (l : list (list A)) (acc : list A) :
  fold_left (fun a c => (a ++ c)%list) l acc = (acc ++ concat l)%list.
Proof.
  revert acc; induction l as [|x l IH]; intros acc; simpl.
  - now rewrite app_nil_r.
  - now rewrite IH, app_assoc.
Qed.

Lemma reduce_concat_init_concat {A : Type} (l : list (list A)) :
  reduce_concat_init l = concat l.
Proof. unfold reduce_concat_init; now rewrite fold_left_concat. Qed.


Lemma targetArray_flat_map (entries : list (string * Result)) :
  targetArray (TObject entries) = flat_map spec_tokens entries.
Proof.
  unfold targetArray; rewrite reduce_concat_init_concat.
  induction entries as [|[axiomId res] entries IH]; simpl; [reflexivity|].
  destruct (passed res); simpl.
  - rewrite <- IH, map_map; reflexivity.
  - exact IH.
Qed.

Lemma append_eq_nonempty (a b : string) : b <> "" -> a ++ b <> "".
Proof. destruct a, b; simpl; congruence. Qed.

(** No token is the empty string: each one holds an ["="]. *)
Lemma targetArray_nonempty (t : AxiomTargets) (tok : string) :
  In tok (targetArray t) -> tok <> "".
Proof.
  destruct t as [b|entries]; [intros []|].
  rewrite targetArray_flat_map, in_flat_map.
  intros ([axiomName res] & _ & Hin); simpl in Hin.
  destruct (passed res); [|destruct Hin].
  destruct Hin as [<-|Hin].
  - apply append_eq_nonempty; discriminate.
  - apply in_map_iff in Hin; destruct Hin as (t & <- & _).
    apply append_eq_nonempty; discriminate.
Qed.

(** On tokens that are not empty, [!tokens.find(tar => check === tar)]
    says that [check] is no token. *)
Lemma find_truthy_existsb (tokens : list string) (check : string) :
  (forall tok, In tok tokens -> tok <> "") ->
  truthy (find_ (fun tar => check =? tar) tokens) = existsb (String.eqb check) tokens.
Proof.
  unfold find_; intros Hne; induction tokens as [|tok tokens IH]; simpl; [reflexivity|].
  destruct (check =? tok) eqn:E.
  - apply String.eqb_eq in E; subst tok.
    assert (check <> "") by (apply Hne; now left).
    destruct check; [congruence | reflexivity].
  - apply IH; intros; apply Hne; now right.
Qed.


Lemma spec_unsatisfied_In (tokens conditions : list string) (cond : string) :
  In cond (spec_unsatisfied tokens conditions)
  <-> In cond conditions /\ ~ In cond tokens.
Proof.
  unfold spec_unsatisfied; rewrite filter_In, negb_true_iff.
  rewrite <- not_true_iff_false.
  change (existsb (String.eqb cond) tokens) with (hasOwnProperty tokens cond).
  now rewrite hasOwnProperty_In.
Qed.

Lemma ignoreReasons_spec (t : AxiomTargets) (r : RuleInfo) :
  ignoreReasons (targetArray t) r = spec_unsatisfied (targetArray t) (where_ r).
Proof.
  unfold ignoreReasons, spec_unsatisfied.
  apply filter_ext; intros check.
  now rewrite find_truthy_existsb by apply targetArray_nonempty.
Qed.


(** ** The stages of the callback *)

Lemma may_return_Await {A : Type} (c : Call) (k : Settled Result -> Async A) (a : A) :
  may_return (Await c k) a -> exists outcome, may_return (k outcome) a.
Proof. intros H; inversion H; subst; eauto. Qed.

Ltac returned :=
  repeat match goal with
    | H : may_return (Return _) _ |- _ => apply may_return_Return in H; subst
    | H : may_return (Await _ _) _ |- _ =>
        apply may_return_Await in H; destruct H as ([?|?] & H)
    end.

Section Stages.

Variables (allRules allFixes : list string).
Variables (fileSystem : FileSystem) (dryRun : bool).


(** Whatever [fixStage] returns is a result of the rule, and is not
    IGNORED. *)
Lemma fixStage_returns (r : RuleInfo) (result : Result) (f : FormatResult) :
  may_return (fixStage allFixes fileSystem dryRun r result) f -> ruleInfo f = r /\ status f <> IGNORED.
Proof.
  unfold fixStage.
  destruct (negb (truthy (fixType r)) || passed result);
    [intros H; returned; split; [reflexivity | discriminate]|].
  destruct (negb (hasOwnProperty allFixes (template (fixType r))));
    intros H; returned; (split; [reflexivity | discriminate]).
Qed.

Lemma lintStage_returns (r : RuleInfo) (f : FormatResult) :
  may_return (lintStage allRules allFixes fileSystem dryRun r) f -> ruleInfo f = r /\ status f <> IGNORED.
Proof.
  unfold lintStage.
  destruct (negb (hasOwnProperty allRules (ruleType r)));
    intros H; returned; try (split; [reflexivity | discriminate]).
  now apply fixStage_returns in H.
Qed.

Lemma lintStage_not_ignored (r : RuleInfo) (f : FormatResult) :
  may_return (lintStage allRules allFixes fileSystem dryRun r) f -> status f <> IGNORED.
Proof. intros H; now apply lintStage_returns in H. Qed.

(** Every result of the callback of a rule carries that rule. *)
Lemma ruleCallback_returns (targets_ : AxiomTargets) (tokens : list string)
    (r : RuleInfo) (f : FormatResult) :
  may_return (ruleCallback allRules allFixes fileSystem dryRun targets_ tokens r) f -> ruleInfo f = r.
Proof.
  unfold ruleCallback.
  destruct (level r =? "off"); [intros H; now returned|].
  destruct (not_boolean targets_ && _); [intros H; now returned|].
  intros H; now apply lintStage_returns in H.
Qed.

(** The callback never throws and awaits at most twice: once for the
    rule plugin, once for the fix plugin. *)
Lemma fixStage_returns_within (r : RuleInfo) (result : Result) :
  returns_within 1 (fixStage allFixes fileSystem dryRun r result).
Proof.
  unfold fixStage.
  destruct (negb (truthy (fixType r)) || passed result); [constructor|].
  destruct (negb (hasOwnProperty allFixes (template (fixType r)))); [constructor|].
  constructor; intros [fixresult|e]; constructor.
Qed.

Lemma lintStage_returns_within (r : RuleInfo) : returns_within 2 (lintStage allRules allFixes fileSystem dryRun r).
Proof.
  unfold lintStage.
  destruct (negb (hasOwnProperty allRules (ruleType r))); [constructor|].
  constructor; intros [result|e]; [apply fixStage_returns_within | constructor].
Qed.

Lemma ruleCallback_returns_within (targets_ : AxiomTargets)
    (tokens : list string) (r : RuleInfo) :
  returns_within 2 (ruleCallback allRules allFixes fileSystem dryRun targets_ tokens r).
Proof.
  unfold ruleCallback.
  destruct (level r =? "off"); [constructor|].
  destruct (not_boolean targets_ && _); [constructor|].
  apply lintStage_returns_within.
Qed.

End Stages.

(** ** The overall verdict *)

Lemma breaksRun_total (f : FormatResult) :
  exists b, breaksRun f = Fulfilled b /\ (b = true <-> spec_breaks f).
Proof.
  unfold breaksRun, spec_breaks.
  destruct f as [r msg|r reason|r res|r res fres]; simpl.
  - exists true; split; [reflexivity|]; split; auto.
  - exists false; split; [reflexivity|]; split; [discriminate|].
    intros [H|(H & _)]; [discriminate | now elim H].
  - destruct (level r =? "error") eqn:E.
    + exists (negb (passed res)); split; [reflexivity|].
      apply String.eqb_eq in E; rewrite negb_true_iff; split.
      * intros Hp; right; repeat split; [discriminate | exact E | eauto].
      * intros [H|(_ & _ & res' & Hres & Hp)]; [discriminate|]; congruence.
    + exists false; split; [reflexivity|]; split; [discriminate|].
      apply String.eqb_neq in E.
      intros [H|(_ & Hl & _)]; [discriminate | contradiction].
  - destruct (level r =? "error") eqn:E.
    + exists (negb (passed res)); split; [reflexivity|].
      apply String.eqb_eq in E; rewrite negb_true_iff; split.
      * intros Hp; right; repeat split; [discriminate | exact E | eauto].
      * intros [H|(_ & _ & res' & Hres & Hp)]; [discriminate|]; congruence.
    + exists false; split; [reflexivity|]; split; [discriminate|].
      apply String.eqb_neq in E.
      intros [H|(_ & Hl & _)]; [discriminate | contradiction].
Qed.

Lemma overallPassed_total (result : list FormatResult) :
  exists verdict,
    overallPassed result = Fulfilled verdict
    /\ (verdict = false <-> Exists spec_breaks result).
Proof.
  unfold overallPassed.
  induction result as [|f result (v & Hv & Hiff)]; simpl.
  - exists true; split; [reflexivity|]; split; [discriminate|].
    intros H; inversion H.
  - destruct (breaksRun_total f) as (b & -> & Hb); destruct b.
    + exists false; split; [reflexivity|]; split; auto.
      intros _; left; now apply Hb.
    + exists v; split; [exact Hv|]; rewrite Hiff; split.
      * now right.
      * intros H; inversion H; subst; [|assumption].
        assert (false = true) by now apply Hb. discriminate.
Qed.

Lemma harmless_not_breaks (f : FormatResult) : spec_harmless f -> ~ spec_breaks f.
Proof.
  unfold spec_harmless, spec_breaks.
  intros [Hi|(He & Hl)] [He'|(Hi' & Hl' & _)]; congruence.
Qed.

Lemma lint_report_verdict {World : Type}
    (plugin : Call -> World -> Settled Result * World) (turns : nat)
    (allRules allFixes allAxioms : list string) (fileSystem : FileSystem)
    (ruleset : Config) (dryRun : bool) (m m' : Machine World)
    (report : LintResult) :
  lint plugin turns allRules allFixes allAxioms fileSystem ruleset dryRun m
    = Some (Fulfilled report, m') ->
  overallPassed (results report) = Fulfilled (lint_passed report)
  /\ errored report = false.
Proof.
  unfold lint; intros H.
  destruct (parseConfig ruleset); [|discriminate].
  destruct (match config_axioms ruleset with
            | Some axiomconfig => _
            | None => _
            end) as [[[targetObj|e] m1]|]; try discriminate.
  destruct (runRuleset _ _ _ _ _ _ _ _ _) as [[[result|e] m2]|]; try discriminate.
  destruct (overallPassed result) as [v|e] eqn:Ev; [|discriminate].
  injection H as <- <-; simpl; auto.
Qed.

(** C1.  The verdict computed by [lint] is defined on every list of
    FormatResults, and it is [false] exactly when some entry is an ERROR,
    or is not IGNORED, has level ["error"] and a lint Result that did not
    pass.  Entries that are ignored or whose rule is at another level than
    ["error"] (warnings) never make it [false].  The [passed] field of the
    report of a run is this verdict on the run's results. *)
Theorem overall_verdict :
  (forall result : list FormatResult,
      exists verdict,
        overallPassed result = Fulfilled verdict
        /\ (verdict = false <-> Exists spec_breaks result)
        /\ (Forall spec_harmless result -> verdict = true))
  /\ (forall (World : Type) (plugin : Call -> World -> Settled Result * World)
        turns allRules allFixes allAxioms fileSystem ruleset dryRun
        (m m' : Machine World) report,
         lint plugin turns allRules allFixes allAxioms fileSystem ruleset dryRun m
           = Some (Fulfilled report, m') ->
         (lint_passed report = false <-> Exists spec_breaks (results report))).
Proof.
  split.
  - intros result.
    destruct (overallPassed_total result) as (v & Hv & Hiff).
    exists v; repeat split; try apply Hiff; auto.
    intros Hall; destruct v; [reflexivity|].
    assert (Hex : Exists spec_breaks result) by now apply Hiff.
    apply Exists_exists in Hex; destruct Hex as (f & Hin & Hbreaks).
    rewrite Forall_forall in Hall.
    now elim (harmless_not_breaks f (Hall f Hin)).
  - intros World plugin turns allRules allFixes allAxioms fileSystem ruleset
           dryRun m m' report Hrun.
    apply lint_report_verdict in Hrun; destruct Hrun as (Hv & _).
    destruct (overallPassed_total (results report)) as (v & Hv' & Hiff).
    rewrite Hv in Hv'; injection Hv' as ->; exact Hiff.
Qed.

(** A run in the demonstration environment: the axiom is resolved, then
    the rules are dispatched.  The rule at level ["warning"] did not pass
    and was fixed, the rule on [b.py] is ignored, and the verdict is
    [true]. *)
Example demo_lint :
  let ruleset :=
    ConfigV2
      [("license",
        mkRuleEntry "error" [] (mkPluginRef "always-pass" None) None None None);
       ("js-only",
        mkRuleEntry "warning" ["language=a.js"]
          (mkPluginRef "file-existence" (Some emptyObject))
          (Some (mkPluginRef "file-create" None)) None None);
       ("py-only",
        mkRuleEntry "error" ["language=b.py"]
          (mkPluginRef "file-existence" None) None None None)]
      (Some [("linguist", "language")]) in
  exists report,
    lint Demo.plugin 2 Demo.allRules Demo.allFixes Demo.allAxioms Demo.fs
      ruleset true (0, [])
    = Some (Fulfilled report,
            (4, [InvokeAxiom "linguist" Demo.fs;
                 InvokeRule "always-pass" Demo.fs None;
                 InvokeRule "file-existence" Demo.fs (Some emptyObject);
                 InvokeFix "file-create" Demo.fs None
                   [Some "LICENSE"; Some "NOTICE"] true]))
    /\ lint_passed report = true
    /\ map name (map ruleInfo (results report)) = ["license"; "js-only"; "py-only"]
    /\ map status (results report) = [LINT_ONLY; LINT_AND_FIX; IGNORED]
    /\ lint_targets report = [("language", Demo.languages)].
Proof.
  intros ruleset; eexists; split; [vm_compute; reflexivity|].
  repeat split.
Qed.

(** ** Tokens and conditions *)

(** C2, as amended.  With an axiom-result object, the token array is the
    tokens of the results that passed, entry after entry: ["<name>=*"]
    and ["<name>=<path>"] for every target, whatever the target's flag,
    and nothing for a result that did not pass.  The axiom ["language"]
    with the single target [a.js] gives exactly ["language=*"] and
    ["language=a.js"]; a rule on ["language=a.js"] whose level is not
    ["off"] has no unsatisfied condition, goes on to the registry check
    and no result of it is IGNORED; a rule on ["language=b.js"] whose
    level is not ["off"] is IGNORED with that condition as the reason. *)
Theorem token_set :
  (forall entries : list (string * Result),
      targetArray (TObject entries) = flat_map spec_tokens entries
      /\ forall tok,
          In tok (targetArray (TObject entries))
          <-> exists axiomName res,
                In (axiomName, res) entries /\ passed res = true
                /\ (tok = axiomName ++ "=*"
                    \/ exists t, In t (targets res)
                                 /\ tok = axiomName ++ "=" ++ template (path t)))
  /\ (forall (msg : string) (flag : bool),
        let language :=
          TObject [("language", mkResult msg [mkTarget (Some "a.js") flag] true)] in
        targetArray language = ["language=*"; "language=a.js"]
        /\ forall allRules allFixes fileSystem dryRun (r : RuleInfo),
            level r <> "off" ->
            (where_ r = ["language=a.js"] ->
               ignoreReasons (targetArray language) r = []
               /\ ruleCallback allRules allFixes fileSystem dryRun
                    language (targetArray language) r
                  = lintStage allRules allFixes fileSystem dryRun r
               /\ forall f,
                   may_return (ruleCallback allRules allFixes fileSystem dryRun
                                 language (targetArray language) r) f ->
                   status f <> IGNORED)
            /\ (where_ r = ["language=b.js"] ->
                  ruleCallback allRules allFixes fileSystem dryRun
                    language (targetArray language) r
                  = Return (CreateIgnored r
                              ("ignored due to unsatisfied condition(s): "
                                 ++ dquote ++ "language=b.js" ++ dquote)))).
Proof.
  split.
  - intros entries; split; [apply targetArray_flat_map|].
    intros tok; rewrite targetArray_flat_map, in_flat_map; split.
    + intros ([axiomName res] & Hin & Htok); simpl in Htok.
      destruct (passed res) eqn:Hp; [|destruct Htok].
      exists axiomName, res; repeat split; auto.
      destruct Htok as [<-|Htok]; [now left | right].
      apply in_map_iff in Htok; destruct Htok as (t & <- & Ht).
      exists t; split; [exact Ht | reflexivity].
    + intros (axiomName & res & Hin & Hp & Htok).
      exists (axiomName, res); split; [exact Hin|]; simpl; rewrite Hp.
      destruct Htok as [->|(t & Ht & ->)]; [now left | right].
      apply in_map_iff; exists t; split; [reflexivity | exact Ht].
  - intros msg flag language; split; [reflexivity|].
    intros allRules allFixes fileSystem dryRun r Hl.
    apply String.eqb_neq in Hl; split.
    + intros Hw.
      assert (Hcb : ruleCallback allRules allFixes fileSystem dryRun
                      language (targetArray language) r
                    = lintStage allRules allFixes fileSystem dryRun r).
      { unfold ruleCallback; rewrite Hl.
        unfold ignoreReasons; rewrite Hw; reflexivity. }
      split; [unfold ignoreReasons; rewrite Hw; reflexivity|].
      split; [exact Hcb|].
      intros f Hf; rewrite Hcb in Hf.
      exact (lintStage_not_ignored _ _ _ _ _ _ Hf).
    + intros Hw; unfold ruleCallback; rewrite Hl.
      unfold ignoreReasons; rewrite Hw; reflexivity.
Qed.

(** C2, counterexample to the claim as worded.  With the axiom
    ["language"] reporting the single target [a.js], a rule at level
    ["off"] on ["language=a.js"] is IGNORED, and a rule at level ["off"]
    on ["language=b.js"] is IGNORED for its level: the reason does not
    list ["language=b.js"].  Line 305 comes before lines 307-310. *)
Lemma off_rule_tokens_counterexample :
  let language :=
    TObject [("language", mkResult "" [mkTarget (Some "a.js") true] true)] in
  let on_a := Demo.rule "on-a" "off" ["language=a.js"] "file-existence" None in
  let on_b := Demo.rule "on-b" "off" ["language=b.js"] "file-existence" None in
  targetArray language = ["language=*"; "language=a.js"]
  /\ (exists f,
        ruleCallback Demo.allRules Demo.allFixes Demo.fs false
          language (targetArray language) on_a = Return f
        /\ status f = IGNORED)
  /\ ruleCallback Demo.allRules Demo.allFixes Demo.fs false
        language (targetArray language) on_b
     = Return (CreateIgnored on_b
                 ("ignored because level is " ++ dquote ++ "off" ++ dquote))
  /\ ruleCallback Demo.allRules Demo.allFixes Demo.fs false
        language (targetArray language) on_b
     <> Return (CreateIgnored on_b
                  ("ignored due to unsatisfied condition(s): "
                     ++ dquote ++ "language=b.js" ++ dquote)).
Proof.
  split; [reflexivity|].
  split; [eexists; split; reflexivity|].
  split; [reflexivity | intros H; discriminate H].
Qed.

(** ** The event loop *)

Section EventLoopFacts.

Context {World : Type} (plugin : Call -> World -> Settled Result * World).
Context {A : Type}.

Lemma resume_steps (p : Async A) (m : Machine World) :
  steps_to p (fst (resume plugin p m)).
Proof.
  destruct p as [a|e|c k]; simpl; try (now constructor).
  destruct (plugin c (fst m)) as [outcome w]; simpl; constructor.
Qed.

Lemma turn_steps (ps : list (Async A)) (m : Machine World) :
  Forall2 steps_to ps (fst (turn plugin ps m)).
Proof.
  revert m; induction ps as [|p ps IH]; intros m; simpl; [constructor|].
  pose proof (resume_steps p m) as Hp.
  destruct (resume plugin p m) as [p' m1].
  specialize (IH m1); destruct (turn plugin ps m1) as [ps' m2]; simpl in *.
  now constructor.
Qed.

Lemma steps_may_return (p p' : Async A) (a : A) :
  steps_to p p' -> may_return p' a -> may_return p a.
Proof. intros [q _|c k outcome] H; [exact H | econstructor; exact H]. Qed.

Lemma steps_returns_within (n : nat) (p p' : Async A) :
  steps_to p p' -> returns_within (S n) p -> returns_within n p'.
Proof.
  intros [q Hq|c k outcome] H; inversion H; subst;
    [constructor | discriminate | auto].
Qed.

(** Callbacks that await no more have all returned: the promise fulfils
    with their values, slot by slot. *)
Lemma returned_values (ps : list (Async A)) :
  Forall (returns_within 0) ps ->
  forallb settled ps = true
  /\ first_rejection ps = None
  /\ Forall2 may_return ps (values ps).
Proof.
  induction 1 as [|p ps Hp _ (Hs & Hr & Hv)]; simpl; [repeat split; constructor|].
  inversion Hp; subst; simpl; repeat split; auto with async.
Qed.

Lemma settled_returns_within (n : nat) (p : Async A) :
  settled p = true -> returns_within n p -> returns_within 0 p.
Proof. intros Hs H; destruct H; [constructor | discriminate]. Qed.

Lemma never_rejected (n : nat) (ps : list (Async A)) :
  Forall (returns_within n) ps -> first_rejection ps = None.
Proof.
  induction 1 as [|p ps Hp _ IH]; simpl; [reflexivity|].
  destruct Hp; exact IH.
Qed.

(** Callbacks that never throw and await at most [n] times are all
    settled after [n] turns, and [Promise.all] fulfils with one value
    per slot, each a value its callback can return. *)
Lemma event_loop_fulfils (turns n : nat) (ps : list (Async A)) (m : Machine World) :
  Forall (returns_within n) ps -> n <= turns ->
  exists vs m',
    event_loop plugin turns None ps m = Some (Fulfilled vs, m')
    /\ Forall2 may_return ps vs.
Proof.
  revert n ps m; induction turns as [|turns IH]; intros n ps m Hall Hn.
  - assert (n = 0) by lia; subst n.
    destruct (returned_values ps Hall) as (Hs & Hr & Hv).
    simpl; rewrite Hs, Hr; eauto.
  - simpl; rewrite (never_rejected n ps Hall).
    destruct (forallb settled ps) eqn:Hs.
    + exists (values ps), m; split; [reflexivity|].
      apply returned_values.
      rewrite forallb_forall in Hs; rewrite Forall_forall in *.
      intros p Hin; apply settled_returns_within with (n := n); auto.
    + pose proof (turn_steps ps m) as Hsteps.
      destruct (turn plugin ps m) as [ps' m1]; simpl in Hsteps.
      assert (Hall' : Forall (returns_within (pred n)) ps').
      { clear - Hall Hsteps Hs.
        destruct n as [|n].
        - destruct (returned_values ps Hall) as (Hs' & _); congruence.
        - simpl; clear Hs.
          induction Hsteps as [|p p' ps ps' Hp _ IHs]; [constructor|].
          inversion Hall; subst; constructor; auto.
          eapply steps_returns_within; eauto. }
      destruct (IH (pred n) ps' m1 Hall' ltac:(lia)) as (vs & m' & Hrun & Hvs).
      exists vs, m'; split; [exact Hrun|].
      clear - Hsteps Hvs; revert vs Hvs.
      induction Hsteps as [|p p' ps ps' Hp _ IHs]; intros vs Hvs;
        inversion Hvs; subst; constructor; auto.
      eapply steps_may_return; eauto.
Qed.

(** A slot whose callback returns at once holds that value. *)
Lemma slot_of_Return (ps : list (Async A)) (vs : list A) (i : nat) (a : A) :
  Forall2 may_return ps vs -> nth_error ps i = Some (Return a) ->
  nth_error vs i = Some a.
Proof.
  intros H; revert i; induction H as [|p v ps vs Hp _ IH]; intros [|i] Hi;
    simpl in *; try discriminate; auto.
  injection Hi as ->; now apply may_return_Return in Hp; subst.
Qed.

(** When every callback has settled at the start, no turn is taken. *)
Lemma event_loop_settled (turns : nat) (ps : list (Async A)) (m : Machine World) :
  forallb settled ps = true ->
  event_loop plugin turns None ps m
  = Some (match first_rejection ps with
          | Some e => Rejected e
          | None => Fulfilled (values ps)
          end, m).
Proof. intros Hs; destruct turns; simpl; rewrite Hs; reflexivity. Qed.

End EventLoopFacts.

(** ** The batch of rules *)

Section Batch.

Context {World : Type} (plugin : Call -> World -> Settled Result * World).
Variables (allRules allFixes : list string).
Variables (fileSystem : FileSystem) (dryRun : bool).

Lemma rulePromises_results (ruleset : list RuleInfo) (targets_ : AxiomTargets)
    (fs : list FormatResult) :
  Forall2 may_return
    (rulePromises allRules allFixes fileSystem dryRun ruleset targets_) fs ->
  map ruleInfo fs = ruleset.
Proof.
  unfold rulePromises; revert fs.
  induction ruleset as [|r ruleset IH]; intros fs H; inversion H; subst;
    simpl; [reflexivity|].
  f_equal; [eapply ruleCallback_returns; eauto | auto].
Qed.

(** Two turns settle any batch: [runRuleset] fulfils with one
    FormatResult per rule, in the order of the rules, each one a result
    of the callback of its own rule. *)
Lemma runRuleset_total (turns : nat) (ruleset : list RuleInfo)
    (targets_ : AxiomTargets) (m : Machine World) :
  exists fs m',
    runRuleset plugin (2 + turns) allRules allFixes ruleset targets_
      fileSystem dryRun m = Some (Fulfilled fs, m')
    /\ Forall2 may_return
         (rulePromises allRules allFixes fileSystem dryRun ruleset targets_) fs
    /\ map ruleInfo fs = ruleset.
Proof.
  unfold runRuleset, Promise_all.
  destruct (event_loop_fulfils plugin (2 + turns) 2
              (rulePromises allRules allFixes fileSystem dryRun ruleset targets_) m)
    as (fs & m' & Hrun & Hfs).
  - unfold rulePromises; apply Forall_forall; intros p Hin.
    apply in_map_iff in Hin; destruct Hin as (r & <- & _).
    apply ruleCallback_returns_within.
  - lia.
  - exists fs, m'; repeat split; auto.
    eapply rulePromises_results; eauto.
Qed.

(** In a batch, the slot of a rule whose callback returns at once holds
    that value, whatever the other rules do. *)
Lemma runRuleset_slot (turns : nat) (ruleset : list RuleInfo)
    (targets_ : AxiomTargets) (m : Machine World) (i : nat) (r : RuleInfo)
    (f : FormatResult) :
  nth_error ruleset i = Some r ->
  ruleCallback allRules allFixes fileSystem dryRun targets_
    (targetArray targets_) r = Return f ->
  exists fs m',
    runRuleset plugin (2 + turns) allRules allFixes ruleset targets_
      fileSystem dryRun m = Some (Fulfilled fs, m')
    /\ nth_error fs i = Some f.
Proof.
  intros Hi Hr.
  destruct (runRuleset_total turns ruleset targets_ m) as (fs & m' & Hrun & Hfs & _).
  exists fs, m'; split; [exact Hrun|].
  eapply slot_of_Return; [exact Hfs|].
  unfold rulePromises; rewrite nth_error_map, Hi; simpl; now rewrite Hr.
Qed.

End Batch.

(** ** Ignored rules *)

Lemma dispatched_ignoreReasons (targets_ : AxiomTargets) (r : RuleInfo) :
  dispatched targets_ r ->
  (level r =? "off") = false
  /\ not_boolean targets_ && (0 <? length (ignoreReasons (targetArray targets_) r))%nat
     = false.
Proof.
  intros (Hl & Hw); split; [now apply String.eqb_neq|].
  destruct (not_boolean targets_); [|reflexivity]; simpl.
  rewrite ignoreReasons_spec.
  destruct (spec_unsatisfied _ _) as [|cond l] eqn:E; [reflexivity|].
  assert (Hin : In cond (spec_unsatisfied (targetArray targets_) (where_ r)))
    by (rewrite E; now left).
  apply spec_unsatisfied_In in Hin; destruct Hin as (Hin & Hnot).
  elim Hnot; now apply Hw.
Qed.

Lemma dispatched_lintStage (allRules allFixes : list string)
    (fileSystem : FileSystem) (dryRun : bool) (targets_ : AxiomTargets)
    (r : RuleInfo) :
  dispatched targets_ r ->
  ruleCallback allRules allFixes fileSystem dryRun targets_ (targetArray targets_) r
  = lintStage allRules allFixes fileSystem dryRun r.
Proof.
  intros H; apply dispatched_ignoreReasons in H; destruct H as (Hl & Hw).
  unfold ruleCallback; now rewrite Hl, Hw.
Qed.

(** C3.  With an axiom-result object, a rule that is not ["off"] and has
    a condition that is no token is IGNORED at once, without any plugin
    call; the reason quotes the conditions that are no tokens, all of
    them and only them, in the order of [where], joined by a comma.  In a
    batch its slot holds that result, and alone it leaves the world and
    the log of calls as they were. *)
Theorem unsatisfied_conditions_ignored {World : Type}
    (plugin : Call -> World -> Settled Result * World)
    (allRules allFixes : list string) (fileSystem : FileSystem) (dryRun : bool)
    (entries : list (string * Result)) (r : RuleInfo) :
  level r <> "off" ->
  (exists cond, In cond (where_ r) /\ ~ In cond (targetArray (TObject entries))) ->
  let tokens := targetArray (TObject entries) in
  let unsatisfied := spec_unsatisfied tokens (where_ r) in
  let ignored :=
    CreateIgnored r
      ("ignored due to unsatisfied condition(s): "
         ++ dquote ++ join (dquote ++ ", " ++ dquote) unsatisfied ++ dquote) in
  ruleCallback allRules allFixes fileSystem dryRun (TObject entries) tokens r
  = Return ignored
  /\ (forall cond, In cond unsatisfied <-> In cond (where_ r) /\ ~ In cond tokens)
  /\ (forall turns ruleset i m,
         nth_error ruleset i = Some r ->
         exists fs m',
           runRuleset plugin (2 + turns) allRules allFixes ruleset
             (TObject entries) fileSystem dryRun m = Some (Fulfilled fs, m')
           /\ nth_error fs i = Some ignored)
  /\ (forall turns m,
         runRuleset plugin turns allRules allFixes [r] (TObject entries)
           fileSystem dryRun m = Some (Fulfilled [ignored], m)).
Proof.
  intros Hl (cond & Hin & Hnot) tokens unsatisfied ignored.
  assert (Hcb : ruleCallback allRules allFixes fileSystem dryRun
                  (TObject entries) tokens r = Return ignored).
  { unfold ruleCallback; apply String.eqb_neq in Hl; rewrite Hl.
    unfold tokens; rewrite ignoreReasons_spec; fold tokens; fold unsatisfied.
    assert (Hu : In cond unsatisfied) by now apply spec_unsatisfied_In.
    destruct unsatisfied; [destruct Hu | reflexivity]. }
  split; [exact Hcb|]; split; [|split].
  - intros cond'; apply spec_unsatisfied_In.
  - intros turns ruleset i m Hi; now apply runRuleset_slot with (r := r).
  - intros turns m; unfold runRuleset, Promise_all, rulePromises; cbn [map].
    unfold tokens in Hcb; rewrite Hcb; now apply event_loop_settled.
Qed.

Lemma unsatisfied_conditions_ignored_witness :
  let r := Demo.rule "c" "warning" ["language=b.js"; "language=a.js"; "x=y"]
             "file-existence" None in
  let entries := [("language", Demo.languages)] in
  level r <> "off"
  /\ In "x=y" (where_ r)
  /\ ruleCallback Demo.allRules Demo.allFixes Demo.fs false (TObject entries)
       (targetArray (TObject entries)) r
     = Return (CreateIgnored r
                 ("ignored due to unsatisfied condition(s): "
                    ++ dquote ++ "language=b.js" ++ dquote ++ ", "
                    ++ dquote ++ "x=y" ++ dquote)).
Proof.
  intros r entries.
  assert (Hl : level r <> "off") by discriminate.
  assert (Hc : exists cond,
             In cond (where_ r) /\ ~ In cond (targetArray (TObject entries))).
  { exists "x=y"; split; [simpl; tauto|].
    simpl; intros [H|[H|[]]]; discriminate. }
  split; [exact Hl|]; split; [simpl; tauto|].
  exact (proj1 (unsatisfied_conditions_ignored Demo.plugin Demo.allRules
                  Demo.allFixes Demo.fs false entries r Hl Hc)).
Defined.

(** C4, as the code has it.  A rule at level ["off"] is IGNORED at once,
    whatever its conditions and the axiom results, with the reason
    [ignored because level is "off"], the word off between double quotes;
    no plugin is called: in a batch its slot holds that result, and alone
    it leaves the world and the log of calls as they were. *)
Theorem off_rule_ignored {World : Type}
    (plugin : Call -> World -> Settled Result * World)
    (allRules allFixes : list string) (fileSystem : FileSystem) (dryRun : bool)
    (targets_ : AxiomTargets) (r : RuleInfo) :
  level r = "off" ->
  let ignored :=
    CreateIgnored r ("ignored because level is " ++ dquote ++ "off" ++ dquote) in
  (forall tokens,
      ruleCallback allRules allFixes fileSystem dryRun targets_ tokens r
      = Return ignored)
  /\ (forall turns ruleset i m,
         nth_error ruleset i = Some r ->
         exists fs m',
           runRuleset plugin (2 + turns) allRules allFixes ruleset targets_
             fileSystem dryRun m = Some (Fulfilled fs, m')
           /\ nth_error fs i = Some ignored)
  /\ (forall turns m,
         runRuleset plugin turns allRules allFixes [r] targets_
           fileSystem dryRun m = Some (Fulfilled [ignored], m)).
Proof.
  intros Hl ignored.
  assert (Hcb : forall tokens,
             ruleCallback allRules allFixes fileSystem dryRun targets_ tokens r
             = Return ignored).
  { intros tokens; unfold ruleCallback.
    apply String.eqb_eq in Hl; now rewrite Hl. }
  split; [exact Hcb|]; split.
  - intros turns ruleset i m Hi; apply runRuleset_slot with (r := r); auto.
  - intros turns m; unfold runRuleset, Promise_all, rulePromises; cbn [map].
    rewrite Hcb; now apply event_loop_settled.
Qed.

Lemma off_rule_ignored_witness :
  let r := Demo.rule "b" "off" ["language=b.js"] "nope" (Some "fix-nope") in
  level r = "off"
  /\ runRuleset Demo.plugin 0 Demo.allRules Demo.allFixes [r]
       (TObject [("language", Demo.languages)]) Demo.fs false (0, [])
     = Some (Fulfilled
               [CreateIgnored r
                  ("ignored because level is " ++ dquote ++ "off" ++ dquote)],
             (0, [])).
Proof.
  intros r; split; [reflexivity|].
  exact (proj2 (proj2 (off_rule_ignored Demo.plugin Demo.allRules Demo.allFixes
                         Demo.fs false (TObject [("language", Demo.languages)])
                         r eq_refl)) 0 (0, [])).
Defined.

(** C4, as the claim words it, fails: the reason of a rule at level
    ["off"] is not the text [ignored because level is off] without the
    quotes. *)
Lemma off_rule_reason_counterexample :
  let r := Demo.rule "b" "off" [] "file-existence" None in
  level r = "off"
  /\ ruleCallback Demo.allRules Demo.allFixes Demo.fs false (TBoolean true) [] r
     <> Return (CreateIgnored r "ignored because level is off").
Proof.
  intros r; split; [reflexivity|].
  vm_compute; intros H; discriminate H.
Qed.

(** ** Faults of rules *)

(** What the slots of a batch hold: the event loop gives each callback
    the outcomes the plugin gives to its calls. *)
Section Answers.

Context {World : Type} (plugin : Call -> World -> Settled Result * World).
Context {A : Type}.

Lemma answers_may_return (p : Async A) (a : A) :
  answers plugin p a -> may_return p a.
Proof. induction 1; econstructor; eauto. Qed.

Lemma resume_answers (p : Async A) (m : Machine World) (a : A) :
  answers plugin (fst (resume plugin p m)) a -> answers plugin p a.
Proof.
  destruct p as [v|e|c k]; simpl; auto.
  destruct (plugin c (fst m)) as [outcome w] eqn:E; simpl; intros H.
  apply answers_later with (w := fst m); now rewrite E.
Qed.

Lemma turn_answers (ps : list (Async A)) (m : Machine World) (vs : list A) :
  Forall2 (answers plugin) (fst (turn plugin ps m)) vs ->
  Forall2 (answers plugin) ps vs.
Proof.
  revert m vs; induction ps as [|p ps IH]; intros m vs; simpl; [auto|].
  pose proof (resume_answers p m) as Hp.
  destruct (resume plugin p m) as [p' m1]; simpl in Hp.
  specialize (IH m1); destruct (turn plugin ps m1) as [ps' m2]; simpl in *.
  intros H; inversion H; subst; constructor; auto.
Qed.

Lemma values_answers (ps : list (Async A)) :
  forallb settled ps = true -> first_rejection ps = None ->
  Forall2 (answers plugin) ps (values ps).
Proof.
  induction ps as [|[v|e|c k] ps IH]; simpl; intros Hs Hr;
    try discriminate; constructor; auto; constructor.
Qed.

(** When [Promise.all] fulfils, each slot holds what its own callback
    returns on the outcomes of its own calls. *)
Lemma event_loop_answers (turns : nat) (rejection : option Fault)
    (ps : list (Async A)) (m m' : Machine World) (vs : list A) :
  event_loop plugin turns rejection ps m = Some (Fulfilled vs, m') ->
  Forall2 (answers plugin) ps vs.
Proof.
  revert rejection ps m; induction turns as [|turns IH]; intros rejection ps m;
    simpl; destruct (forallb settled ps) eqn:Hs; try discriminate.
  - destruct rejection as [e|]; [discriminate|].
    destruct (first_rejection ps) eqn:Hr; [discriminate|].
    intros H; injection H as <- _; now apply values_answers.
  - destruct rejection as [e|]; [discriminate|].
    destruct (first_rejection ps) eqn:Hr; [discriminate|].
    intros H; injection H as <- _; now apply values_answers.
  - destruct (turn plugin ps m) as [ps' m1] eqn:Et; intros H.
    apply IH in H; apply turn_answers with (m := m); now rewrite Et.
Qed.

End Answers.

(** The callback of a rule, past the [await] of the rule plugin, is
    [afterRuleAwait] at what the plugin gave when the plugin keeps its
    contract. *)
Lemma afterRuleAwait_contract (allRules allFixes : list string)
    (fileSystem : FileSystem) (dryRun : bool) (r : RuleInfo) :
  hasOwnProperty allRules (ruleType r) = true ->
  exists k,
    lintStage allRules allFixes fileSystem dryRun r
    = Await (InvokeRule (ruleType r) fileSystem (ruleConfig r)) k
    /\ (forall result,
           k (Fulfilled result)
           = afterRuleAwait allFixes fileSystem dryRun r (RawFulfilled (Some result)))
    /\ (forall e,
           k (Rejected e)
           = afterRuleAwait allFixes fileSystem dryRun r (RawRejected (Some e))).
Proof.
  intros Hreg; unfold lintStage; rewrite Hreg; simpl.
  eexists; split; [reflexivity|]; split; reflexivity.
Qed.

(** A rule plugin that gives [undefined], or throws it, makes the
    callback of its rule reject, and [Promise.all] with it: the batch
    gives no FormatResult at all, not even that of the rule at level
    ["off"] beside it. *)
Example ill_formed_rule_value_rejects :
  let r := Demo.rule "d" "error" [] "always-pass" None in
  let sibling := Demo.rule "b" "off" [] "file-existence" None in
  let beside :=
    ruleCallback Demo.allRules Demo.allFixes Demo.fs false (TBoolean true) [] sibling in
  beside
  = Return (CreateIgnored sibling
              ("ignored because level is " ++ dquote ++ "off" ++ dquote))
  /\ Promise_all Demo.plugin 2
       [afterRuleAwait Demo.allFixes Demo.fs false r (RawFulfilled None); beside]
       (0, [])
     = Some (Rejected (mkFault "Cannot read property 'passed' of undefined"),
             (0, []))
  /\ Promise_all Demo.plugin 2
       [afterRuleAwait Demo.allFixes Demo.fs false r (RawRejected None); beside]
       (0, [])
     = Some (Rejected (mkFault "Cannot read property 'message' of undefined"),
             (0, [])).
Proof. repeat split. Qed.

(** C5, as amended.  For a rule that gets past the two gates (its level
    is not ["off"] and it has no unsatisfied condition): when its type is
    no registered rule plugin, the callback returns at once the ERROR
    ["<type> is not a valid rule"], without any plugin call; when its
    type is registered, the callback calls the rule plugin with the file
    system and the rule's options, and a fault of the plugin becomes the
    ERROR ["<type> threw an error: <fault message>"].  With plugins that
    fulfil with a Result or reject with a fault that has a message, a
    batch settles within two turns with one FormatResult per rule, in
    the order of the rules: each slot carries its own rule and holds what
    the callback of that rule returns on the outcomes the plugin gives
    to its calls, so that a rule whose callback returns at once has that
    very value in its slot, whatever the other rules do. *)
Theorem rule_faults_contained {World : Type}
    (plugin : Call -> World -> Settled Result * World)
    (allRules allFixes : list string) (fileSystem : FileSystem) (dryRun : bool)
    (targets_ : AxiomTargets) (r : RuleInfo) :
  dispatched targets_ r ->
  let callback :=
    ruleCallback allRules allFixes fileSystem dryRun targets_ (targetArray targets_) r in
  (hasOwnProperty allRules (ruleType r) = false ->
     callback = Return (CreateError r (ruleType r ++ " is not a valid rule")))
  /\ (hasOwnProperty allRules (ruleType r) = true ->
        exists k,
          callback = Await (InvokeRule (ruleType r) fileSystem (ruleConfig r)) k
          /\ forall e,
              k (Rejected e)
              = Return (CreateError r
                          (ruleType r ++ " threw an error: " ++ fault_message e)))
  /\ (forall turns w log e w',
         hasOwnProperty allRules (ruleType r) = true ->
         plugin (InvokeRule (ruleType r) fileSystem (ruleConfig r)) w
           = (Rejected e, w') ->
         runRuleset plugin (2 + turns) allRules allFixes [r] targets_
           fileSystem dryRun (w, log)
         = Some (Fulfilled
                   [CreateError r
                      (ruleType r ++ " threw an error: " ++ fault_message e)],
                 (w', (log ++ [InvokeRule (ruleType r) fileSystem (ruleConfig r)])%list)))
  /\ (forall turns ruleset m,
         exists fs m',
           runRuleset plugin (2 + turns) allRules allFixes ruleset targets_
             fileSystem dryRun m = Some (Fulfilled fs, m')
           /\ length fs = length ruleset
           /\ map ruleInfo fs = ruleset
           /\ Forall2 may_return
                (rulePromises allRules allFixes fileSystem dryRun ruleset targets_) fs
           /\ Forall2 (answers plugin)
                (rulePromises allRules allFixes fileSystem dryRun ruleset targets_) fs
           /\ forall i sibling f,
               nth_error ruleset i = Some sibling ->
               ruleCallback allRules allFixes fileSystem dryRun targets_
                 (targetArray targets_) sibling = Return f ->
               nth_error fs i = Some f).
Proof.
  intros Hd callback.
  assert (Hcb : callback = lintStage allRules allFixes fileSystem dryRun r)
    by now apply dispatched_lintStage.
  split; [|split; [|split]].
  - intros Hreg; rewrite Hcb; unfold lintStage; now rewrite Hreg.
  - intros Hreg; rewrite Hcb; unfold lintStage; rewrite Hreg; simpl.
    eexists; split; [reflexivity|]; reflexivity.
  - intros turns w log e w' Hreg Hplugin.
    unfold runRuleset, Promise_all, rulePromises; cbn [map].
    fold callback; rewrite Hcb; unfold lintStage; rewrite Hreg.
    cbn -[String.append]. rewrite Hplugin. reflexivity.
  - intros turns ruleset m.
    destruct (runRuleset_total plugin allRules allFixes fileSystem dryRun
                turns ruleset targets_ m) as (fs & m' & Hrun & Hfs & Hinfo).
    exists fs, m'.
    split; [exact Hrun|].
    split; [rewrite <- (length_map ruleInfo fs); now rewrite Hinfo|].
    split; [exact Hinfo|].
    split; [exact Hfs|].
    split; [exact (event_loop_answers plugin _ _ _ _ _ _ Hrun)|].
    intros i sibling f Hi Hr.
    eapply slot_of_Return; [exact Hfs|].
    unfold rulePromises; rewrite nth_error_map, Hi; simpl; now rewrite Hr.
Qed.

Lemma rule_faults_contained_witness :
  let broken := Demo.rule "d" "error" [] "broken" None in
  let unknown := Demo.rule "e" "error" [] "nope" None in
  let sound := Demo.rule "h" "error" [] "always-pass" None in
  let failing := Demo.rule "a" "error" [] "file-existence" (Some "fix-broken") in
  runRuleset Demo.plugin 2 Demo.allRules Demo.allFixes [broken] (TBoolean true)
    Demo.fs false (0, [])
  = Some (Fulfilled [CreateError broken "broken threw an error: boom"],
          (1, [InvokeRule "broken" Demo.fs (Some emptyObject)]))
  /\ ruleCallback Demo.allRules Demo.allFixes Demo.fs false (TBoolean true) [] unknown
     = Return (CreateError unknown "nope is not a valid rule")
  /\ exists fs m',
      runRuleset Demo.plugin 2 Demo.allRules Demo.allFixes
        [broken; unknown; sound; failing] (TBoolean true) Demo.fs false (0, [])
      = Some (Fulfilled fs, m')
      /\ fs = [CreateError broken "broken threw an error: boom";
               CreateError unknown "nope is not a valid rule";
               CreateLintOnly sound (mkResult "ok" [] true);
               CreateError failing "fix-broken threw an error: disk full"]
      /\ Forall2 (answers Demo.plugin)
           (rulePromises Demo.allRules Demo.allFixes Demo.fs false
              [broken; unknown; sound; failing] (TBoolean true)) fs
      /\ nth_error fs 1 = Some (CreateError unknown "nope is not a valid rule").
Proof.
  intros broken unknown sound failing.
  assert (Hb : dispatched (TBoolean true) broken)
    by (split; [discriminate | intros H; discriminate H]).
  assert (Hu : dispatched (TBoolean true) unknown)
    by (split; [discriminate | intros H; discriminate H]).
  pose proof (rule_faults_contained Demo.plugin Demo.allRules Demo.allFixes
                Demo.fs false (TBoolean true) broken Hb) as (_ & _ & Hrun & Hbatch).
  pose proof (rule_faults_contained Demo.plugin Demo.allRules Demo.allFixes
                Demo.fs false (TBoolean true) unknown Hu) as (Hunknown & _).
  split; [exact (Hrun 0 0 [] (mkFault "boom") 1 eq_refl eq_refl)|].
  split; [exact (Hunknown eq_refl)|].
  destruct (Hbatch 0 [broken; unknown; sound; failing] (0, []))
    as (fs & m' & H1 & _ & _ & _ & H2 & H3).
  exists fs, m'; split; [exact H1|].
  split; [vm_compute in H1; injection H1 as <- _; reflexivity|].
  split; [exact H2|].
  exact (H3 1 unknown _ eq_refl (Hunknown eq_refl)).
Defined.

(** C5, as the claim words it, fails: a rule at level ["off"] whose type
    is no registered rule plugin is IGNORED, it is no ERROR. *)
Lemma unregistered_off_rule_counterexample :
  let r := Demo.rule "b" "off" [] "nope" None in
  hasOwnProperty Demo.allRules (ruleType r) = false
  /\ runRuleset Demo.plugin 2 Demo.allRules Demo.allFixes [r] (TBoolean true)
       Demo.fs false (0, [])
     = Some (Fulfilled
               [CreateIgnored r
                  ("ignored because level is " ++ dquote ++ "off" ++ dquote)],
             (0, []))
  /\ ruleCallback Demo.allRules Demo.allFixes Demo.fs false (TBoolean true) [] r
     <> Return (CreateError r "nope is not a valid rule").
Proof.
  intros r; split; [reflexivity|]; split; [reflexivity|].
  vm_compute; intros H; discriminate H.
Qed.

(** ** The boolean in place of the axiom results *)

(** C9.  [runRuleset] does the same with [false] as with [true] in place
    of the axiom results: the token array is empty, the conditions of the
    rules are not looked at, and the callback of a rule is the IGNORED
    result of level ["off"] or goes on to the rule plugin; a rule that
    is not ["off"] is never IGNORED. *)
Theorem boolean_sentinel :
  forall (World : Type) (plugin : Call -> World -> Settled Result * World)
         (turns : nat) (allRules allFixes : list string)
         (ruleset : list RuleInfo) (fileSystem : FileSystem) (dryRun : bool)
         (m : Machine World),
    runRuleset plugin turns allRules allFixes ruleset (TBoolean false)
      fileSystem dryRun m
    = runRuleset plugin turns allRules allFixes ruleset (TBoolean true)
        fileSystem dryRun m
    /\ forall b : bool,
        targetArray (TBoolean b) = []
        /\ forall r : RuleInfo,
            ruleCallback allRules allFixes fileSystem dryRun (TBoolean b)
              (targetArray (TBoolean b)) r
            = (if level r =? "off"
               then Return (CreateIgnored r
                              ("ignored because level is "
                                 ++ dquote ++ "off" ++ dquote))
               else lintStage allRules allFixes fileSystem dryRun r)
            /\ forall f,
                may_return (ruleCallback allRules allFixes fileSystem dryRun
                              (TBoolean b) (targetArray (TBoolean b)) r) f ->
                status f = IGNORED -> level r = "off".
Proof.
  intros World plugin turns allRules allFixes ruleset fileSystem dryRun m.
  split; [reflexivity|].
  intros b; split; [reflexivity|].
  intros r; split; [reflexivity|].
  intros f; unfold ruleCallback.
  destruct (level r =? "off") eqn:El; [intros _ _; now apply String.eqb_eq|].
  simpl; intros Hf Hs; now elim (lintStage_not_ignored _ _ _ _ _ _ Hf).
Qed.

(** ** Fixes *)

Lemma truthy_Some (s : string) : truthy (Some s) = negb (s =? "").
Proof. destruct s; reflexivity. Qed.

Lemma fixTargets_spec (result : Result) :
  map path
    (filter (fun t => negb (target_passed t) && truthy (path t)) (targets result))
  = spec_fixTargets result.
Proof.
  unfold spec_fixTargets; f_equal; apply filter_ext; intros t.
  destruct (path t) as [p|]; [now rewrite truthy_Some | reflexivity].
Qed.

Lemma spec_fixTargets_In (result : Result) (p : option string) :
  In p (spec_fixTargets result)
  <-> exists t s,
        In t (targets result) /\ target_passed t = false
        /\ path t = Some s /\ s <> "" /\ p = Some s.
Proof.
  unfold spec_fixTargets; rewrite in_map_iff; split.
  - intros (t & <- & Hin); apply filter_In in Hin; destruct Hin as (Hin & Hc).
    apply andb_true_iff in Hc; destruct Hc as (Hp & Hs).
    destruct (path t) as [s|] eqn:E; [|discriminate].
    exists t, s; repeat split; auto.
    + now apply negb_true_iff.
    + apply String.eqb_neq; now apply negb_true_iff.
  - intros (t & s & Hin & Hp & Hpath & Hs & ->).
    exists t; split; [exact Hpath|]; apply filter_In; split; [exact Hin|].
    rewrite Hp, Hpath; simpl; apply negb_true_iff; now apply String.eqb_neq.
Qed.

(** C6, as the code has it.  Once the rule plugin of a registered rule
    type has returned [result], the callback goes on as follows.  When
    [result] did not pass and the rule has a fix type: if the fix type is
    not registered, the ERROR ["<type> is not a valid fix"] is returned
    for the rule; otherwise the fix plugin is called with the file system,
    the fix options, the paths of the targets of [result] that did not
    pass and have a non-empty path, in their order, and the dry-run flag;
    the Result it returns gives LINT_AND_FIX with both Results, and a
    fault of the fix plugin gives the ERROR ["<type> threw an error:
    <fault message>"].  When the rule has no fix type or [result] passed,
    LINT_ONLY is returned at once, without a call of a fix plugin. *)
Theorem fix_dispatch
    (allRules allFixes : list string) (fileSystem : FileSystem) (dryRun : bool)
    (r : RuleInfo) (result : Result) :
  hasOwnProperty allRules (ruleType r) = true ->
  exists afterLint,
    lintStage allRules allFixes fileSystem dryRun r
    = Await (InvokeRule (ruleType r) fileSystem (ruleConfig r)) afterLint
    /\ (forall fixType_,
           passed result = false -> fixType r = Some fixType_ -> fixType_ <> "" ->
           (hasOwnProperty allFixes fixType_ = false ->
              afterLint (Fulfilled result)
              = Return (CreateError r (fixType_ ++ " is not a valid fix")))
           /\ (hasOwnProperty allFixes fixType_ = true ->
                 exists afterFix,
                   afterLint (Fulfilled result)
                   = Await (InvokeFix fixType_ fileSystem (fixConfig r)
                              (spec_fixTargets result) dryRun) afterFix
                   /\ (forall fixresult,
                          afterFix (Fulfilled fixresult)
                          = Return (CreateLintAndFix r result fixresult))
                   /\ (forall e,
                          afterFix (Rejected e)
                          = Return (CreateError r
                                      (fixType_ ++ " threw an error: "
                                         ++ fault_message e)))))
    /\ (truthy (fixType r) = false \/ passed result = true ->
          afterLint (Fulfilled result) = Return (CreateLintOnly r result))
    /\ (forall p,
           In p (spec_fixTargets result)
           <-> exists t s,
                 In t (targets result) /\ target_passed t = false
                 /\ path t = Some s /\ s <> "" /\ p = Some s).
Proof.
  intros Hreg; unfold lintStage; rewrite Hreg; simpl.
  eexists; split; [reflexivity|]; cbv beta iota.
  split; [|split; [|apply spec_fixTargets_In]].
  - intros fixType_ Hp Hft Hne.
    assert (Ht : truthy (fixType r) = true).
    { rewrite Hft, truthy_Some; apply negb_true_iff; now apply String.eqb_neq. }
    unfold fixStage; rewrite Hp, Ht, Hft, fixTargets_spec; simpl; split.
    + intros Hfix; now rewrite Hfix.
    + intros Hfix; rewrite Hfix; simpl.
      eexists; split; [reflexivity|]; split; reflexivity.
  - intros Hor; unfold fixStage.
    destruct Hor as [Ht|Hp]; [now rewrite Ht|].
    rewrite Hp, orb_true_r; reflexivity.
Qed.

Lemma fix_dispatch_witness :
  let r := Demo.rule "a" "error" [] "file-existence" (Some "file-create") in
  exists afterLint afterFix,
    lintStage Demo.allRules Demo.allFixes Demo.fs true r
    = Await (InvokeRule "file-existence" Demo.fs (Some emptyObject)) afterLint
    /\ afterLint (Fulfilled Demo.lintFailure)
       = Await (InvokeFix "file-create" Demo.fs None
                  [Some "LICENSE"; Some "NOTICE"] true) afterFix
    /\ forall fixresult,
        afterFix (Fulfilled fixresult)
        = Return (CreateLintAndFix r Demo.lintFailure fixresult).
Proof.
  intros r.
  destruct (fix_dispatch Demo.allRules Demo.allFixes Demo.fs true r
              Demo.lintFailure eq_refl) as (afterLint & Hlint & Hfix & _).
  destruct (Hfix "file-create" eq_refl eq_refl ltac:(discriminate))
    as (_ & Hregistered).
  destruct (Hregistered eq_refl) as (afterFix & Hcall & Hboth & _).
  exists afterLint, afterFix; split; [exact Hlint|]; split; [exact Hcall | exact Hboth].
Defined.

(** C6, as the claim words it, fails: a rule that did not pass and has a
    registered fix type whose plugin faults gets an ERROR, it is no
    LINT_AND_FIX. *)
Lemma fix_fault_counterexample :
  let r := Demo.rule "f" "warning" [] "file-existence" (Some "fix-broken") in
  let outcome := CreateError r "fix-broken threw an error: disk full" in
  hasOwnProperty Demo.allFixes "fix-broken" = true
  /\ passed Demo.lintFailure = false
  /\ runRuleset Demo.plugin 2 Demo.allRules Demo.allFixes [r] (TBoolean true)
       Demo.fs false (0, [])
     = Some (Fulfilled [outcome],
             (2, [InvokeRule "file-existence" Demo.fs (Some emptyObject);
                  InvokeFix "fix-broken" Demo.fs None
                    [Some "LICENSE"; Some "NOTICE"] false]))
  /\ status outcome <> LINT_AND_FIX.
Proof.
  intros r outcome; split; [reflexivity|]; split; [reflexivity|].
  split; [vm_compute; reflexivity | discriminate].
Qed.

(** A whole batch in the demonstration environment: every kind of result,
    in the order of the rules, the rule plugins called in the first turn
    and the fix plugins in the second. *)
Example demo_batch :
  let a := Demo.rule "a" "error" [] "file-existence" (Some "file-create") in
  let b := Demo.rule "b" "off" [] "nope" None in
  let c := Demo.rule "c" "warning" ["language=b.js"; "language=a.js"] "broken" None in
  let d := Demo.rule "d" "error" ["language=a.js"] "broken" None in
  let e := Demo.rule "e" "error" ["language=*"] "always-pass" (Some "file-create") in
  let f := Demo.rule "f" "warning" [] "file-existence" (Some "fix-broken") in
  runRuleset Demo.plugin 2 Demo.allRules Demo.allFixes [a; b; c; d; e; f]
    (TObject [("language", Demo.languages)]) Demo.fs false (0, [])
  = Some
      (Fulfilled
         [CreateLintAndFix a Demo.lintFailure
            (mkResult "created"
               [mkTarget (Some "LICENSE") true; mkTarget (Some "NOTICE") true] true);
          CreateIgnored b reasonOff;
          CreateIgnored c (reasonUnsatisfied ["language=b.js"]);
          CreateError d "broken threw an error: boom";
          CreateLintOnly e (mkResult "ok" [] true);
          CreateError f "fix-broken threw an error: disk full"],
       (6,
        [InvokeRule "file-existence" Demo.fs (Some emptyObject);
         InvokeRule "broken" Demo.fs (Some emptyObject);
         InvokeRule "always-pass" Demo.fs (Some emptyObject);
         InvokeRule "file-existence" Demo.fs (Some emptyObject);
         InvokeFix "file-create" Demo.fs None [Some "LICENSE"; Some "NOTICE"] false;
         InvokeFix "fix-broken" Demo.fs None [Some "LICENSE"; Some "NOTICE"] false])).
Proof. vm_compute. reflexivity. Qed.

(** ** Normalisation of the configuration *)

Lemma split_colon_nonempty (s : string) : split_colon s <> [].
Proof.
  destruct s as [|c s]; simpl; [discriminate|].
  destruct (Ascii.eqb c ":"); [discriminate|].
  destruct (split_colon s); discriminate.
Qed.

(** A key without [":"] is its own single piece. *)
Lemma split_colon_no_colon (s : string) :
  (forall i, String.get i s <> Some ":"%char) -> split_colon s = [s].
Proof.
  induction s as [|c s IH]; intros H; simpl; [reflexivity|].
  destruct (Ascii.eqb c ":") eqn:E.
  - apply Ascii.eqb_eq in E; subst c; now elim (H 0).
  - rewrite IH; [reflexivity|].
    intros i; exact (H (S i)).
Qed.

(** A version-2 configuration gives one descriptor per entry of [rules],
    in the order of the entries, each with the name of its entry. *)
Lemma parseConfig_v2 (rules : list (string * RuleEntry))
    (axioms : option (list (string * string))) :
  exists ruleset,
    parseConfig (ConfigV2 rules axioms) = Fulfilled ruleset
    /\ length ruleset = length rules
    /\ map name ruleset = map fst rules
    /\ forall i key cfg,
        nth_error rules i = Some (key, cfg) ->
        nth_error ruleset i
        = Some (mkRuleInfo key (cfg_level cfg) (cfg_where cfg) (type (cfg_rule cfg))
                  (options (cfg_rule cfg)) (fix_type cfg) (fix_options cfg)
                  (cfg_policyInfo cfg) (cfg_policyUrl cfg)).
Proof.
  eexists; split; [reflexivity|]; split; [apply length_map|]; split.
  - rewrite map_map; apply map_ext; now intros [key cfg].
  - intros i key cfg Hi; rewrite nth_error_map, Hi; reflexivity.
Qed.

(** A legacy configuration with at least one group gives the descriptors
    of its groups, group after group and rule after rule. *)
Lemma parseConfig_legacy
    (group : string * list (string * (string * option JSON)))
    (groups : list (string * list (string * (string * option JSON))))
    (axioms : option (list (string * string))) :
  parseConfig (ConfigLegacy (group :: groups) axioms)
  = Fulfilled
      (flat_map (fun g => map (legacyRule (fst g)) (snd g)) (group :: groups)).
Proof.
  unfold parseConfig, reduce_concat; cbn [map].
  rewrite fold_left_concat; f_equal.
  destruct group as [where_key rules]; simpl; f_equal.
  induction groups as [|[k g] groups IH]; simpl; [reflexivity|]; now rewrite IH.
Qed.

(** The descriptor of a legacy rule. *)
Lemma legacyRule_fields (where_key rulename level_ : string) (opts : option JSON) :
  let r := legacyRule where_key (rulename, (level_, opts)) in
  level r = level_
  /\ where_ r = (if where_key =? "all" then [] else [where_key])
  /\ (opts = None -> ruleConfig r = Some emptyObject)
  /\ ((forall i, String.get i rulename <> Some ":"%char) ->
      name r = rulename /\ ruleType r = rulename)
  /\ fixType r = None.
Proof.
  simpl; repeat split.
  - now intros ->.
  - now rewrite split_colon_no_colon.
  - now rewrite split_colon_no_colon.
Qed.

(** C7 at a legacy configuration without any group: no descriptor list
    comes out, not even the empty one; [parseConfig] throws. *)
Theorem legacy_without_groups_throws :
  parseConfig (ConfigLegacy [] None)
  = Rejected (mkFault "Reduce of empty array with no initial value")
  /\ parseConfig (ConfigLegacy [] None) <> Fulfilled [].
Proof. split; [reflexivity | discriminate]. Qed.

(** C10.  On a legacy configuration whose [rules] has no group,
    [parseConfig] throws: the concatenation folds the empty array of
    groups without an initial value.  No descriptor list is returned, and
    [lint] rejects with that fault before any plugin is called.  With at
    least one group [parseConfig] returns a list. *)
Theorem legacy_zero_groups :
  forall axioms : option (list (string * string)),
    parseConfig (ConfigLegacy [] axioms)
    = Rejected (mkFault "Reduce of empty array with no initial value")
    /\ (forall ruleset, parseConfig (ConfigLegacy [] axioms) <> Fulfilled ruleset)
    /\ (forall (World : Type) (plugin : Call -> World -> Settled Result * World)
          turns allRules allFixes allAxioms fileSystem dryRun (m : Machine World),
           lint plugin turns allRules allFixes allAxioms fileSystem
             (ConfigLegacy [] axioms) dryRun m
           = Some (Rejected (mkFault "Reduce of empty array with no initial value"), m))
    /\ (forall group groups,
           exists ruleset,
             parseConfig (ConfigLegacy (group :: groups) axioms) = Fulfilled ruleset).
Proof.
  intros axioms; split; [reflexivity|]; split; [discriminate|]; split.
  - reflexivity.
  - intros group groups; eexists; apply parseConfig_legacy.
Qed.

(** ** Axiom resolution *)

Section Axioms.

Context {World : Type} (plugin : Call -> World -> Settled Result * World).
Variables (allAxioms : list string) (fs : FileSystem).

Lemma settle_settled (outcomes : list (string * Settled Result)) :
  forallb settled (map settle outcomes) = true
  /\ first_rejection (map settle outcomes) = first_fault outcomes
  /\ values (map settle outcomes) = resolved outcomes.
Proof.
  induction outcomes as [|[axiomName [res|e]] outcomes (Hs & Hr & Hv)]; simpl;
    repeat split; auto; now f_equal.
Qed.

(** One turn over the axiom callbacks settles them all. *)
Lemma turn_axiomCallbacks (axiomconfig : list (string * string)) (m : Machine World) :
  turn plugin (map (axiomCallback allAxioms fs) axiomconfig) m
  = (map settle (fst (axiomOutcomes plugin allAxioms fs axiomconfig m)),
     snd (axiomOutcomes plugin allAxioms fs axiomconfig m)).
Proof.
  revert m; induction axiomconfig as [|[axiomId axiomName] rest IH]; intros m;
    [reflexivity|].
  cbn [map turn axiomOutcomes axiomCallback].
  destruct (hasOwnProperty allAxioms axiomId); cbn [negb resume].
  - destruct (plugin (InvokeAxiom axiomId fs) (fst m)) as [outcome w].
    rewrite IH.
    destruct (axiomOutcomes plugin allAxioms fs rest _) as [outcomes m'].
    destruct outcome; reflexivity.
  - rewrite IH.
    destruct (axiomOutcomes plugin allAxioms fs rest m) as [outcomes m'].
    reflexivity.
Qed.

Lemma turn_settled {A : Type} (ps : list (Async A)) (m : Machine World) :
  forallb settled ps = true -> turn plugin ps m = (ps, m).
Proof.
  induction ps as [|p ps IH]; simpl; [reflexivity|].
  intros H; apply andb_true_iff in H; destruct H as (Hp & Hps).
  destruct p; try discriminate; simpl; now rewrite IH.
Qed.

Lemma axiomCallbacks_not_rejected (axiomconfig : list (string * string)) :
  first_rejection (map (axiomCallback allAxioms fs) axiomconfig) = None.
Proof.
  induction axiomconfig as [|[axiomId axiomName] rest IH]; simpl; [reflexivity|].
  destruct (hasOwnProperty allAxioms axiomId); exact IH.
Qed.

(** [determineTargets] by the outcomes of the entries: it rejects with
    the first fault, and otherwise fulfils with the object built from
    the named Results. *)
Lemma determineTargets_outcomes (turns : nat)
    (axiomconfig : list (string * string)) (m : Machine World) :
  determineTargets plugin (S turns) allAxioms axiomconfig fs m
  = Some (match first_fault (fst (axiomOutcomes plugin allAxioms fs axiomconfig m)) with
          | Some e => Rejected e
          | None =>
              Fulfilled
                (flatten (resolved (fst (axiomOutcomes plugin allAxioms fs axiomconfig m))))
          end,
          snd (axiomOutcomes plugin allAxioms fs axiomconfig m)).
Proof.
  unfold determineTargets, Promise_all.
  pose proof (turn_axiomCallbacks axiomconfig m) as Hturn.
  destruct (axiomOutcomes plugin allAxioms fs axiomconfig m) as [outcomes m'].
  simpl fst in *; simpl snd in *.
  destruct (settle_settled outcomes) as (Hs & Hr & Hv).
  assert (Hloop :
    event_loop plugin (S turns) None (map (axiomCallback allAxioms fs) axiomconfig) m
    = Some (match first_fault outcomes with
            | Some e => Rejected e
            | None => Fulfilled (resolved outcomes)
            end, m')).
  { destruct (forallb settled (map (axiomCallback allAxioms fs) axiomconfig)) eqn:E.
    - rewrite (turn_settled _ m E) in Hturn; injection Hturn as Hps Hm.
      rewrite event_loop_settled by exact E.
      now rewrite Hps, Hr, Hv, Hm.
    - cbn [event_loop]; rewrite E, axiomCallbacks_not_rejected, Hturn.
      rewrite event_loop_settled by exact Hs.
      now rewrite Hr, Hv. }
  rewrite Hloop; destruct (first_fault outcomes); reflexivity.
Qed.

Lemma axiomOutcomes_app (before after : list (string * string)) (m : Machine World) :
  fst (axiomOutcomes plugin allAxioms fs (before ++ after) m)
  = (fst (axiomOutcomes plugin allAxioms fs before m)
       ++ fst (axiomOutcomes plugin allAxioms fs after
                 (snd (axiomOutcomes plugin allAxioms fs before m))))%list.
Proof.
  revert m; induction before as [|[axiomId axiomName] before IH]; intros m;
    [reflexivity|].
  cbn [app axiomOutcomes].
  destruct (hasOwnProperty allAxioms axiomId).
  - destruct (plugin (InvokeAxiom axiomId fs) (fst m)) as [outcome w].
    specialize (IH (w, (snd m ++ [InvokeAxiom axiomId fs])%list)).
    destruct (axiomOutcomes plugin allAxioms fs (before ++ after) _) as [o1 m1].
    destruct (axiomOutcomes plugin allAxioms fs before _) as [o2 m2].
    simpl in *; now rewrite IH.
  - specialize (IH m).
    destruct (axiomOutcomes plugin allAxioms fs (before ++ after) m) as [o1 m1].
    destruct (axiomOutcomes plugin allAxioms fs before m) as [o2 m2].
    simpl in *; now rewrite IH.
Qed.

Lemma axiomOutcomes_names (axiomconfig : list (string * string)) (m : Machine World) :
  map fst (fst (axiomOutcomes plugin allAxioms fs axiomconfig m))
  = map snd axiomconfig.
Proof.
  revert m; induction axiomconfig as [|[axiomId axiomName] rest IH]; intros m;
    [reflexivity|].
  cbn [axiomOutcomes].
  destruct (hasOwnProperty allAxioms axiomId).
  - destruct (plugin (InvokeAxiom axiomId fs) (fst m)) as [outcome w].
    specialize (IH (w, (snd m ++ [InvokeAxiom axiomId fs])%list)).
    destruct (axiomOutcomes plugin allAxioms fs rest _) as [o1 m1].
    simpl in *; now rewrite IH.
  - specialize (IH m).
    destruct (axiomOutcomes plugin allAxioms fs rest m) as [o1 m1].
    simpl in *; now rewrite IH.
Qed.

End Axioms.

(** *** Objects *)

Lemma property_assign_same {V : Type} (a : list (string * V)) (k : string) (v : V) :
  property (assign a k v) k = Some v.
Proof.
  induction a as [|[k' v'] a IH]; simpl.
  - now rewrite String.eqb_refl.
  - destruct (k' =? k) eqn:E; simpl; rewrite E; [reflexivity | exact IH].
Qed.

Lemma property_assign_other {V : Type} (a : list (string * V)) (k k' : string) (v : V) :
  k <> k' -> property (assign a k v) k' = property a k'.
Proof.
  intros Hne; induction a as [|[k0 v0] a IH]; simpl.
  - apply String.eqb_neq in Hne; now rewrite Hne.
  - destruct (k0 =? k) eqn:E; simpl.
    + apply String.eqb_eq in E; subst k0.
      apply String.eqb_neq in Hne; now rewrite Hne.
    + destruct (k0 =? k'); [reflexivity | exact IH].
Qed.

Lemma property_fold_assign_other {V : Type} (l a : list (string * V)) (k : string) :
  ~ In k (map fst l) ->
  property (fold_left (fun a '(k, v) => assign a k v) l a) k = property a k.
Proof.
  revert a; induction l as [|[k' v'] l IH]; intros a Hnot; simpl; [reflexivity|].
  rewrite IH by (intros H; apply Hnot; now right).
  apply property_assign_other; intros ->; apply Hnot; now left.
Qed.

(** The object built by [flatten] holds, under a name, the Result of the
    last entry with that name. *)
Lemma property_flatten (before after : list (string * Result)) (k : string) (v : Result) :
  ~ In k (map fst after) ->
  property (flatten (before ++ (k, v) :: after)) k = Some v.
Proof.
  intros Hnot; unfold flatten; rewrite fold_left_app; simpl.
  rewrite property_fold_assign_other by exact Hnot.
  apply property_assign_same.
Qed.

Lemma resolved_all (outcomes : list (string * Settled Result)) :
  first_fault outcomes = None -> map fst (resolved outcomes) = map fst outcomes.
Proof.
  induction outcomes as [|[axiomName [res|e]] outcomes IH]; simpl;
    [reflexivity | intros H; now rewrite IH | discriminate].
Qed.

Lemma resolved_app (o1 o2 : list (string * Settled Result)) :
  resolved (o1 ++ o2) = (resolved o1 ++ resolved o2)%list.
Proof.
  induction o1 as [|[axiomName [res|e]] o1 IH]; simpl; [reflexivity | now rewrite IH | exact IH].
Qed.

Lemma first_fault_app (o1 o2 : list (string * Settled Result)) :
  first_fault (o1 ++ o2) = None -> first_fault o1 = None /\ first_fault o2 = None.
Proof.
  induction o1 as [|[axiomName [res|e]] o1 IH]; simpl; auto; discriminate.
Qed.

Lemma first_fault_In (outcomes : list (string * Settled Result)) :
  (exists axiomName e, In (axiomName, Rejected e) outcomes)
  <-> exists e, first_fault outcomes = Some e.
Proof.
  induction outcomes as [|[axiomName [res|e]] outcomes IH]; simpl.
  - split; [intros (n & e & []) | intros (e & H); discriminate].
  - rewrite <- IH; split.
    + intros (n & e & [H|H]); [discriminate | eauto].
    + intros (n & e & H); eauto.
  - split; [eauto | intros _; exists axiomName, e; now left].
Qed.

(** The fault [first_fault] finds is the fault of one of the entries. *)
Lemma first_fault_member (outcomes : list (string * Settled Result)) (e : Fault) :
  first_fault outcomes = Some e ->
  exists axiomName, In (axiomName, Rejected e) outcomes.
Proof.
  induction outcomes as [|[axiomName [res|e0]] outcomes IH]; simpl;
    [discriminate| |].
  - intros H; destruct (IH H) as (n & Hn); eauto.
  - intros H; injection H as ->; exists axiomName; now left.
Qed.

Lemma axiomOutcomes_unregistered {World : Type}
    (plugin : Call -> World -> Settled Result * World)
    (allAxioms : list string) (fs : FileSystem) (axiomId axiomName : string)
    (after : list (string * string)) (m : Machine World) :
  hasOwnProperty allAxioms axiomId = false ->
  fst (axiomOutcomes plugin allAxioms fs ((axiomId, axiomName) :: after) m)
  = (axiomName, Fulfilled (invalidAxiom axiomId))
      :: fst (axiomOutcomes plugin allAxioms fs after m).
Proof.
  intros H; cbn [axiomOutcomes]; rewrite H.
  now destruct (axiomOutcomes plugin allAxioms fs after m).
Qed.

(** C8, as the code has it.  The callback of an entry whose identifier is
    no registered axiom plugin returns at once, without a plugin call and
    without a fault, the entry's name with the Result ["invalid axiom name
    <id>"], not passed, no targets.  When no axiom plugin faults,
    [determineTargets] fulfils with the object built from the Results of
    all the entries, which holds that Result under the name of the entry
    provided no later entry has the same name.  When an axiom plugin
    faults, [determineTargets] rejects with the first such fault: nothing
    catches it and no object is returned. *)
Theorem axiom_faults {World : Type}
    (plugin : Call -> World -> Settled Result * World)
    (allAxioms : list string) (fs : FileSystem) (turns : nat)
    (axiomconfig : list (string * string)) (m : Machine World) :
  let outcomes := fst (axiomOutcomes plugin allAxioms fs axiomconfig m) in
  let m' := snd (axiomOutcomes plugin allAxioms fs axiomconfig m) in
  (forall axiomId axiomName,
      hasOwnProperty allAxioms axiomId = false ->
      axiomCallback allAxioms fs (axiomId, axiomName)
      = Return (axiomName, mkResult ("invalid axiom name " ++ axiomId) [] false))
  /\ ((forall axiomName e, ~ In (axiomName, Rejected e) outcomes) ->
        exists object,
          determineTargets plugin (S turns) allAxioms axiomconfig fs m
          = Some (Fulfilled object, m')
          /\ forall before axiomId axiomName after,
              axiomconfig = (before ++ (axiomId, axiomName) :: after)%list ->
              hasOwnProperty allAxioms axiomId = false ->
              ~ In axiomName (map snd after) ->
              property object axiomName
              = Some (mkResult ("invalid axiom name " ++ axiomId) [] false))
  /\ ((exists axiomName e, In (axiomName, Rejected e) outcomes) ->
        exists e,
          first_fault outcomes = Some e
          /\ determineTargets plugin (S turns) allAxioms axiomconfig fs m
             = Some (Rejected e, m')).
Proof.
  intros outcomes m'.
  pose proof (determineTargets_outcomes plugin allAxioms fs turns axiomconfig m) as Hrun.
  fold outcomes in Hrun; fold m' in Hrun.
  split; [|split].
  - intros axiomId axiomName Hreg; unfold axiomCallback; now rewrite Hreg.
  - intros Hnone.
    assert (Hff : first_fault outcomes = None).
    { destruct (first_fault outcomes) as [e|] eqn:E; [|reflexivity].
      assert (Hex : exists axiomName e', In (axiomName, Rejected e') outcomes)
        by (apply first_fault_In; eauto).
      destruct Hex as (n & e' & Hin); now elim (Hnone n e'). }
    rewrite Hff in Hrun.
    eexists; split; [exact Hrun|].
    intros before axiomId axiomName after Hcfg Hreg Hlater.
    unfold outcomes in *; subst axiomconfig.
    rewrite axiomOutcomes_app, axiomOutcomes_unregistered in * by exact Hreg.
    apply first_fault_app in Hff; destruct Hff as (_ & Hff); simpl in Hff.
    rewrite resolved_app; simpl.
    apply property_flatten.
    now rewrite resolved_all, axiomOutcomes_names.
  - intros Hex; apply first_fault_In in Hex; destruct Hex as (e & He).
    exists e; split; [exact He|]; now rewrite He in Hrun.
Qed.

Lemma axiom_faults_witness :
  (exists object m',
      determineTargets Demo.plugin 1 Demo.allAxioms
        [("nope", "packager"); ("linguist", "language")] Demo.fs (0, [])
      = Some (Fulfilled object, m')
      /\ property object "packager"
         = Some (mkResult "invalid axiom name nope" [] false))
  /\ determineTargets Demo.plugin 1 Demo.allAxioms
       [("nope", "packager"); ("linguist", "language"); ("licensee", "license")]
       Demo.fs (0, [])
     = Some (Rejected (mkFault "licensee not installed"),
             (2, [InvokeAxiom "linguist" Demo.fs; InvokeAxiom "licensee" Demo.fs])).
Proof.
  pose proof (axiom_faults Demo.plugin Demo.allAxioms Demo.fs 0
                [("nope", "packager"); ("linguist", "language")] (0, []))
    as (_ & Hok & _).
  pose proof (axiom_faults Demo.plugin Demo.allAxioms Demo.fs 0
                [("nope", "packager"); ("linguist", "language");
                 ("licensee", "license")] (0, []))
    as (_ & _ & Hfault).
  split.
  - destruct Hok as (object & Hrun & Hprop).
    + intros axiomName e; simpl; intros [H|[H|[]]]; discriminate H.
    + exists object; eexists; split; [exact Hrun|].
      apply (Hprop [] "nope" "packager" [("linguist", "language")] eq_refl eq_refl).
      simpl; intros [H|[]]; discriminate H.
  - destruct Hfault as (e & He & Hrun).
    + exists "license", (mkFault "licensee not installed"); simpl; tauto.
    + injection He as <-; exact Hrun.
Defined.

(** C8, as the claim words it, fails: when a later entry has the same
    name, the object holds the later entry's Result under that name, and
    no Result of the object reports the identifier that is not
    registered. *)
Lemma axiom_name_clash_counterexample :
  let axiomconfig := [("nope", "language"); ("linguist", "language")] in
  hasOwnProperty Demo.allAxioms "nope" = false
  /\ determineTargets Demo.plugin 1 Demo.allAxioms axiomconfig Demo.fs (0, [])
     = Some (Fulfilled [("language", Demo.languages)],
             (1, [InvokeAxiom "linguist" Demo.fs]))
  /\ forall axiomName res,
      In (axiomName, res) [("language", Demo.languages)] ->
      message res <> "invalid axiom name nope".
Proof.
  intros axiomconfig; split; [reflexivity|]; split; [reflexivity|].
  intros axiomName res [H|[]]; injection H as _ <-; discriminate.
Qed.

(** * Further properties *)

(** ** When a rule is ignored *)

Lemma Forall2_nth_error {A B : Type} (R : A -> B -> Prop) (l : list A) (l' : list B)
    (i : nat) (a : A) (b : B) :
  Forall2 R l l' -> nth_error l i = Some a -> nth_error l' i = Some b -> R a b.
Proof.
  intros H; revert i; induction H as [|x y l l' Hxy _ IH]; intros [|i] Ha Hb;
    simpl in *; try discriminate.
  - injection Ha as <-; injection Hb as <-; exact Hxy.
  - eauto.
Qed.

Lemma gated_not_dispatched (targets_ : AxiomTargets) (r : RuleInfo) :
  gated targets_ r -> ~ dispatched targets_ r.
Proof.
  intros [Hoff|(Hobj & cond & Hin & Hnot)] (Hl & Hw); [contradiction|].
  apply Hnot; now apply Hw.
Qed.

Lemma gated_or_dispatched (targets_ : AxiomTargets) (r : RuleInfo) :
  gated targets_ r \/ dispatched targets_ r.
Proof.
  destruct (level r =? "off") eqn:El;
    [left; left; now apply String.eqb_eq|].
  apply String.eqb_neq in El.
  destruct (not_boolean targets_) eqn:Eb;
    [|right; split; [exact El | intros H; congruence]].
  destruct (spec_unsatisfied (targetArray targets_) (where_ r)) as [|cond l] eqn:E.
  - right; split; [exact El|]; intros _ cond Hin.
    destruct (in_dec string_dec cond (targetArray targets_)) as [Hy|Hn];
      [exact Hy|].
    assert (H : In cond (spec_unsatisfied (targetArray targets_) (where_ r)))
      by now apply spec_unsatisfied_In.
    rewrite E in H; destruct H.
  - left; right; split; [exact Eb|]; exists cond.
    apply spec_unsatisfied_In; rewrite E; now left.
Qed.

Lemma gated_ignored (allRules allFixes : list string) (fileSystem : FileSystem)
    (dryRun : bool) (targets_ : AxiomTargets) (r : RuleInfo) :
  gated targets_ r ->
  exists reason,
    ruleCallback allRules allFixes fileSystem dryRun targets_
      (targetArray targets_) r = Return (CreateIgnored r reason).
Proof.
  unfold ruleCallback; intros Hg.
  destruct (level r =? "off") eqn:El; [eauto|].
  destruct Hg as [Hoff|(Hobj & cond & Hin & Hnot)];
    [apply String.eqb_neq in El; contradiction|].
  rewrite Hobj, ignoreReasons_spec; simpl.
  assert (H : In cond (spec_unsatisfied (targetArray targets_) (where_ r)))
    by now apply spec_unsatisfied_In.
  destruct (spec_unsatisfied _ _); [destruct H | simpl; eauto].
Qed.

(** X1.  In the results of a batch, the entry of a rule is IGNORED exactly
    when the rule is ["off"] or, the axiom results being an object, one of
    its conditions is no token; in every other case the rule reaches the
    registry check and its entry is an ERROR or a lint result. *)
Theorem ignored_iff_gated {World : Type}
    (plugin : Call -> World -> Settled Result * World)
    (allRules allFixes : list string) (fileSystem : FileSystem) (dryRun : bool)
    (turns : nat) (ruleset : list RuleInfo) (targets_ : AxiomTargets)
    (m : Machine World) :
  exists fs m',
    runRuleset plugin (2 + turns) allRules allFixes ruleset targets_
      fileSystem dryRun m = Some (Fulfilled fs, m')
    /\ forall i r f,
        nth_error ruleset i = Some r -> nth_error fs i = Some f ->
        (status f = IGNORED <-> gated targets_ r).
Proof.
  destruct (runRuleset_total plugin allRules allFixes fileSystem dryRun
              turns ruleset targets_ m) as (fs & m' & Hrun & Hfs & _).
  exists fs, m'; split; [exact Hrun|].
  intros i r f Hr Hf.
  assert (Hret : may_return
                   (ruleCallback allRules allFixes fileSystem dryRun targets_
                      (targetArray targets_) r) f).
  { eapply (Forall2_nth_error _ _ _ i) in Hfs; [exact Hfs | | exact Hf].
    unfold rulePromises; now rewrite nth_error_map, Hr. }
  split.
  - intros Hs; destruct (gated_or_dispatched targets_ r) as [Hg|Hd]; [exact Hg|].
    rewrite (dispatched_lintStage _ _ _ _ _ _ Hd) in Hret.
    now elim (lintStage_not_ignored _ _ _ _ _ _ Hret).
  - intros Hg.
    destruct (gated_ignored allRules allFixes fileSystem dryRun _ _ Hg)
      as (reason & Hcb).
    rewrite Hcb in Hret; apply may_return_Return in Hret; now subst f.
Qed.

(** ** The calls of a batch *)

Section Calls.

Context {World : Type} (plugin : Call -> World -> Settled Result * World).
Context {A : Type} (P : Call -> Prop).

Lemma resume_calls (n : nat) (p : Async A) (m : Machine World) :
  makes_only P n p ->
  exists calls,
    snd (snd (resume plugin p m)) = (snd m ++ calls)%list
    /\ Forall P calls
    /\ makes_only P (pred n) (fst (resume plugin p m))
    /\ length calls + pred n <= n.
Proof.
  intros [k a|k e|k c cont Hc Hk]; simpl.
  - exists []; rewrite app_nil_r.
    split; [reflexivity|]; split; [constructor|]; split; [constructor | simpl; lia].
  - exists []; rewrite app_nil_r.
    split; [reflexivity|]; split; [constructor|]; split; [constructor | simpl; lia].
  - destruct (plugin c (fst m)) as [outcome w]; simpl.
    exists [c]; split; [reflexivity|]; split; [now constructor|].
    split; [apply Hk | simpl; lia].
Qed.

Lemma turn_calls (ns : list nat) (ps : list (Async A)) (m : Machine World) :
  Forall2 (makes_only P) ns ps ->
  exists calls,
    snd (snd (turn plugin ps m)) = (snd m ++ calls)%list
    /\ Forall P calls
    /\ Forall2 (makes_only P) (map pred ns) (fst (turn plugin ps m))
    /\ length calls + list_sum (map pred ns) <= list_sum ns.
Proof.
  intros H; revert m; induction H as [|n p ns ps Hp _ IH]; intros m; simpl.
  - exists []; rewrite app_nil_r.
    split; [reflexivity|]. split; [apply Forall_nil|]. split; [apply Forall2_nil | simpl; lia].
  - destruct (resume_calls n p m Hp) as (c1 & Hlog1 & Hc1 & Hp' & Hle1).
    destruct (resume plugin p m) as [p' m1]; simpl in *.
    destruct (IH m1) as (c2 & Hlog2 & Hc2 & Hps' & Hle2).
    destruct (turn plugin ps m1) as [ps' m2]; simpl in *.
    exists (c1 ++ c2)%list; split; [|split; [|split]].
    + now rewrite Hlog2, Hlog1, app_assoc.
    + now apply Forall_app.
    + now constructor.
    + rewrite length_app; lia.
Qed.

(** The calls logged by the event loop are those the callbacks can make,
    no more than they can make together. *)
Lemma event_loop_calls (turns : nat) (rejection : option Fault) (ns : list nat)
    (ps : list (Async A)) (m m' : Machine World) (out : Settled (list A)) :
  Forall2 (makes_only P) ns ps ->
  event_loop plugin turns rejection ps m = Some (out, m') ->
  exists calls,
    snd m' = (snd m ++ calls)%list
    /\ Forall P calls
    /\ length calls <= list_sum ns.
Proof.
  revert rejection ns ps m; induction turns as [|turns IH];
    intros rejection ns ps m Hps Hrun; simpl in Hrun.
  - destruct (forallb settled ps); [|discriminate].
    injection Hrun as _ <-; exists []; rewrite app_nil_r.
    split; [reflexivity|]; split; [constructor | simpl; lia].
  - destruct (forallb settled ps).
    + injection Hrun as _ <-; exists []; rewrite app_nil_r.
      split; [reflexivity|]; split; [constructor | simpl; lia].
    + destruct (turn_calls ns ps m Hps) as (c1 & Hlog1 & Hc1 & Hps' & Hle1).
      destruct (turn plugin ps m) as [ps' m1]; simpl in *.
      destruct (IH _ _ _ _ Hps' Hrun) as (c2 & Hlog2 & Hc2 & Hle2).
      exists (c1 ++ c2)%list; split; [|split].
      * now rewrite Hlog2, Hlog1, app_assoc.
      * now apply Forall_app.
      * rewrite length_app; lia.
Qed.

End Calls.

Section BatchCalls.

Context {World : Type} (plugin : Call -> World -> Settled Result * World).
Variables (allRules allFixes : list string).
Variables (fileSystem : FileSystem) (dryRun : bool).

(** What [fixStage] can call: the registered fix of the rule, once. *)
Lemma fixStage_makes (r : RuleInfo) (result : Result) :
  makes_only (fixCallOf allFixes fileSystem dryRun)
    (if truthy (fixType r) then 1 else 0)
    (fixStage allFixes fileSystem dryRun r result).
Proof.
  unfold fixStage.
  destruct (truthy (fixType r)) eqn:Et; simpl; [|constructor].
  destruct (passed result) eqn:Ep; simpl; [constructor|].
  destruct (hasOwnProperty allFixes (template (fixType r))) eqn:Ef; simpl;
    [|constructor].
  constructor; [|intros [fixresult|e]; constructor].
  simpl; repeat split; [now apply hasOwnProperty_In|].
  apply Forall_forall; intros p Hin.
  apply in_map_iff in Hin; destruct Hin as (t & <- & Hin).
  apply filter_In in Hin; destruct Hin as (_ & Hc).
  apply andb_true_iff in Hc; destruct Hc as (_ & Hc).
  destruct (path t) as [s|]; [|discriminate].
  exists s; split; [reflexivity|]; intros ->; discriminate.
Qed.

(** The callback of a rule awaits the rule plugin exactly when the rule
    reaches it, and is settled at once otherwise. *)
Lemma ruleCallback_reaches (targets_ : AxiomTargets) (r : RuleInfo) :
  (reachesPlugin allRules targets_ r = true ->
     exists k,
       ruleCallback allRules allFixes fileSystem dryRun targets_
         (targetArray targets_) r = Await (ruleCall fileSystem r) k
       /\ forall outcome,
           makes_only (fixCallOf allFixes fileSystem dryRun)
             (if truthy (fixType r) then 1 else 0) (k outcome))
  /\ (reachesPlugin allRules targets_ r = false ->
        exists f,
          ruleCallback allRules allFixes fileSystem dryRun targets_
            (targetArray targets_) r = Return f).
Proof.
  unfold reachesPlugin, ruleCallback, lintStage.
  destruct (level r =? "off"); simpl; [split; [discriminate | eauto]|].
  destruct (not_boolean targets_ && _); simpl; [split; [discriminate | eauto]|].
  destruct (hasOwnProperty allRules (ruleType r)); simpl;
    [|split; [discriminate | eauto]].
  split; [intros _ | discriminate].
  eexists; split; [reflexivity|].
  intros [result|e]; [apply fixStage_makes | constructor].
Qed.

(** The first turn of a batch calls the plugin of every rule that reaches
    it, in the order of the rules, and leaves each callback with at most
    the call of its fix to make. *)
Lemma turn_rulePromises (ruleset : list RuleInfo) (targets_ : AxiomTargets)
    (m : Machine World) :
  snd (snd (turn plugin
              (rulePromises allRules allFixes fileSystem dryRun ruleset targets_) m))
  = (snd m ++ map (ruleCall fileSystem)
               (filter (reachesPlugin allRules targets_) ruleset))%list
  /\ Forall2 (makes_only (fixCallOf allFixes fileSystem dryRun))
       (map (fun r => if reachesPlugin allRules targets_ r && truthy (fixType r)
                      then 1 else 0) ruleset)
       (fst (turn plugin
               (rulePromises allRules allFixes fileSystem dryRun ruleset targets_) m)).
Proof.
  unfold rulePromises; revert m.
  induction ruleset as [|r ruleset IH]; intros m; cbn [map filter turn].
  - simpl; rewrite app_nil_r; split; [reflexivity | constructor].
  - destruct (ruleCallback_reaches targets_ r) as (Hyes & Hno).
    destruct (reachesPlugin allRules targets_ r) eqn:Er.
    + destruct (Hyes eq_refl) as (k & -> & Hk); cbn [resume].
      destruct (plugin (ruleCall fileSystem r) (fst m)) as [outcome w].
      specialize (IH (w, (snd m ++ [ruleCall fileSystem r])%list)).
      destruct (turn plugin _ _) as [ps' m2]; simpl in *.
      destruct IH as (Hlog & Hps); split.
      * now rewrite Hlog, <- app_assoc.
      * constructor; [apply Hk | exact Hps].
    + destruct (Hno eq_refl) as (f & ->); cbn [resume].
      specialize (IH m).
      destruct (turn plugin _ _) as [ps' m2]; simpl in *.
      destruct IH as (Hlog & Hps); split; [exact Hlog|].
      constructor; [constructor | exact Hps].
Qed.

Lemma budget_sum (ruleset : list RuleInfo) (targets_ : AxiomTargets) :
  list_sum (map (fun r => if reachesPlugin allRules targets_ r && truthy (fixType r)
                          then 1 else 0) ruleset)
  = length (filter (fun r => reachesPlugin allRules targets_ r && truthy (fixType r))
                   ruleset).
Proof.
  induction ruleset as [|r ruleset IH]; simpl; [reflexivity|].
  destruct (reachesPlugin allRules targets_ r && truthy (fixType r)); simpl; lia.
Qed.

End BatchCalls.

(** The log of a batch: the rule calls of the first turn, then fix calls. *)
Lemma batch_log {World : Type}
    (plugin : Call -> World -> Settled Result * World)
    (turns : nat) (allRules allFixes : list string) (ruleset : list RuleInfo)
    (targets_ : AxiomTargets) (fileSystem : FileSystem) (dryRun : bool)
    (m m' : Machine World) (out : Settled (list FormatResult)) :
  runRuleset plugin turns allRules allFixes ruleset targets_ fileSystem dryRun m
    = Some (out, m') ->
  exists fixCalls,
    snd m' = (snd m
                ++ map (ruleCall fileSystem)
                     (filter (reachesPlugin allRules targets_) ruleset)
                ++ fixCalls)%list
    /\ Forall (fixCallOf allFixes fileSystem dryRun) fixCalls
    /\ length fixCalls
       <= length (filter (fun r => reachesPlugin allRules targets_ r
                                   && truthy (fixType r)) ruleset).
Proof.
  unfold runRuleset, Promise_all; intros Hrun.
  destruct (turn_rulePromises plugin allRules allFixes fileSystem dryRun
              ruleset targets_ m) as (Hlog & Hps).
  set (ps := rulePromises allRules allFixes fileSystem dryRun ruleset targets_) in *.
  destruct (forallb settled ps) eqn:Es.
  - rewrite event_loop_settled in Hrun by exact Es.
    injection Hrun as _ <-.
    rewrite (turn_settled plugin ps m Es) in Hlog; simpl in Hlog.
    exists []; rewrite app_nil_r; repeat split;
      [exact Hlog | constructor | simpl; lia].
  - destruct turns as [|turns]; simpl in Hrun; rewrite Es in Hrun; [discriminate|].
    destruct (turn plugin ps m) as [ps' m1]; simpl in *.
    destruct (event_loop_calls plugin _ _ _ _ _ _ _ _ Hps Hrun)
      as (fixCalls & Hlog2 & Hfix & Hle).
    exists fixCalls; repeat split.
    + now rewrite Hlog2, Hlog, app_assoc.
    + exact Hfix.
    + now rewrite budget_sum in Hle.
Qed.

(** X2.  The calls logged by a batch: first the plugin of every rule that
    gets past the two gates and has a registered type, once each, in the
    order of the rules, with the file system and the options of the
    rule; then calls of fix plugins only, each of a registered fix type,
    with the same file system, the dry-run flag of the batch and paths
    that are present and not empty, no more of them than there are such
    rules with a fix type.  No other plugin is called. *)
Theorem runRuleset_call_log {World : Type}
    (plugin : Call -> World -> Settled Result * World)
    (turns : nat) (allRules allFixes : list string) (ruleset : list RuleInfo)
    (targets_ : AxiomTargets) (fileSystem : FileSystem) (dryRun : bool)
    (m m' : Machine World) (out : Settled (list FormatResult)) :
  runRuleset plugin turns allRules allFixes ruleset targets_ fileSystem dryRun m
    = Some (out, m') ->
  exists fixCalls,
    snd m' = (snd m
                ++ map (ruleCall fileSystem)
                     (filter (reachesPlugin allRules targets_) ruleset)
                ++ fixCalls)%list
    /\ Forall (fixCallOf allFixes fileSystem dryRun) fixCalls
    /\ length fixCalls
       <= length (filter (fun r => reachesPlugin allRules targets_ r
                                   && truthy (fixType r)) ruleset).
Proof.
  intros Hrun.
  destruct (batch_log plugin turns allRules allFixes ruleset targets_ fileSystem
              dryRun m m' out Hrun) as (fixCalls & Hlog & Hfix & Hle).
  exists fixCalls; split; [exact Hlog|]; split; [exact Hfix | exact Hle].
Qed.

Lemma runRuleset_call_log_witness :
  let a := Demo.rule "a" "error" [] "file-existence" (Some "file-create") in
  let b := Demo.rule "b" "off" [] "always-pass" None in
  let c := Demo.rule "c" "error" ["language=b.js"] "always-pass" None in
  let d := Demo.rule "d" "warning" ["language=a.js"] "broken" (Some "file-create") in
  let e := Demo.rule "e" "error" [] "nope" (Some "file-create") in
  let language := TObject [("language", Demo.languages)] in
  exists out m' fixCalls,
    runRuleset Demo.plugin 2 Demo.allRules Demo.allFixes [a; b; c; d; e]
      language Demo.fs true (0, []) = Some (out, m')
    /\ snd m' = ([ruleCall Demo.fs a; ruleCall Demo.fs d] ++ fixCalls)%list
    /\ Forall (fixCallOf Demo.allFixes Demo.fs true) fixCalls
    /\ length fixCalls <= 2.
Proof.
  intros a b c d e language.
  destruct (runRuleset Demo.plugin 2 Demo.allRules Demo.allFixes [a; b; c; d; e]
              language Demo.fs true (0, [])) as [[out m']|] eqn:Hrun;
    [|vm_compute in Hrun; discriminate Hrun].
  destruct (runRuleset_call_log Demo.plugin 2 Demo.allRules Demo.allFixes
              [a; b; c; d; e] language Demo.fs true (0, []) m' out Hrun)
    as (fixCalls & Hlog & Hfix & Hle).
  exists out, m', fixCalls; split; [reflexivity|]; split; [exact Hlog|].
  split; [exact Hfix | exact Hle].
Defined.

(** X12.  The descriptors of a legacy configuration carry no fix: a batch
    over them gives no LINT_AND_FIX entry and calls no fix plugin; the
    calls it adds to the log are the rule calls of the first turn. *)
Theorem legacy_rules_never_fixed {World : Type}
    (plugin : Call -> World -> Settled Result * World)
    (turns : nat) (allRules allFixes : list string)
    (groups : list (string * list (string * (string * option JSON))))
    (axioms : option (list (string * string))) (ruleset : list RuleInfo)
    (targets_ : AxiomTargets) (fileSystem : FileSystem) (dryRun : bool)
    (m m' : Machine World) (fs : list FormatResult) :
  parseConfig (ConfigLegacy groups axioms) = Fulfilled ruleset ->
  runRuleset plugin (2 + turns) allRules allFixes ruleset targets_ fileSystem dryRun m
    = Some (Fulfilled fs, m') ->
  Forall (fun f => status f <> LINT_AND_FIX) fs
  /\ snd m' = (snd m ++ map (ruleCall fileSystem)
                          (filter (reachesPlugin allRules targets_) ruleset))%list.
Proof.
  intros Hparse Hrun.
  assert (Hnofix : Forall (fun r => fixType r = None) ruleset).
  { destruct groups as [|group groups]; [discriminate|].
    rewrite parseConfig_legacy in Hparse.
    remember (group :: groups) as all; injection Hparse as <-.
    apply Forall_forall; intros r Hin.
    apply in_flat_map in Hin; destruct Hin as (g & _ & Hin).
    apply in_map_iff in Hin; destruct Hin as ([rulename configray] & <- & _).
    reflexivity. }
  split.
  - destruct (runRuleset_total plugin allRules allFixes fileSystem dryRun
                turns ruleset targets_ m) as (fs' & m'' & Hrun' & Hfs & _).
    rewrite Hrun in Hrun'; injection Hrun' as <- <-.
    unfold rulePromises in Hfs; clear Hrun Hparse.
    revert fs Hfs; induction Hnofix as [|r ruleset Hr _ IH]; intros fs Hfs;
      inversion Hfs; subst; constructor; auto.
    match goal with H : may_return _ _ |- _ => revert H end.
    unfold ruleCallback, lintStage, fixStage; rewrite Hr; simpl.
    destruct (level r =? "off"); [intros H; returned; discriminate|].
    destruct (not_boolean targets_ && _); [intros H; returned; discriminate|].
    destruct (negb (hasOwnProperty allRules (ruleType r)));
      intros H; returned; discriminate.
  - destruct (batch_log plugin _ _ _ _ _ _ _ _ _ _ Hrun)
      as (fixCalls & Hlog & _ & Hle).
    assert (Hnone : filter (fun r => reachesPlugin allRules targets_ r
                                     && truthy (fixType r)) ruleset = []).
    { clear - Hnofix; induction Hnofix as [|r ruleset Hr _ IH]; simpl;
        [reflexivity|].
      now rewrite Hr, andb_false_r. }
    rewrite Hnone in Hle; destruct fixCalls; [|simpl in Hle; lia].
    now rewrite app_nil_r in Hlog.
Qed.

Lemma legacy_rules_never_fixed_witness :
  let groups :=
    [("all", [("license:file-existence", ("error", None))]);
     ("language=a.js", [("always-pass", ("warning", None));
                        ("lint:broken", ("error", None))])] in
  exists ruleset fs m',
    parseConfig (ConfigLegacy groups None) = Fulfilled ruleset
    /\ runRuleset Demo.plugin 2 Demo.allRules Demo.allFixes ruleset
         (TObject [("language", Demo.languages)]) Demo.fs false (0, [])
       = Some (Fulfilled fs, m')
    /\ Forall (fun f => status f <> LINT_AND_FIX) fs
    /\ length (snd m') = 3.
Proof.
  intros groups.
  pose proof (parseConfig_legacy
                ("all", [("license:file-existence", ("error", None))])
                [("language=a.js", [("always-pass", ("warning", None));
                                    ("lint:broken", ("error", None))])] None)
    as Hparse.
  fold groups in Hparse.
  destruct (runRuleset_total Demo.plugin Demo.allRules Demo.allFixes Demo.fs false 0
              (flat_map (fun g => map (legacyRule (fst g)) (snd g)) groups)
              (TObject [("language", Demo.languages)]) (0, []))
    as (fs & m' & Hrun & _).
  destruct (legacy_rules_never_fixed Demo.plugin 0 Demo.allRules Demo.allFixes
              groups None _ (TObject [("language", Demo.languages)])
              Demo.fs false (0, []) m' fs Hparse Hrun) as (Hstatus & Hlog).
  eexists; exists fs, m'; split; [exact Hparse|]; split; [exact Hrun|].
  split; [exact Hstatus|].
  rewrite Hlog; reflexivity.
Defined.

(** ** The verdict of a list of results *)

(** X3.  The verdict of two lists of results put together is the
    conjunction of their verdicts: it is [true] on the empty list, and one
    entry that breaks the run breaks it wherever it stands. *)
Theorem verdict_of_append (l1 l2 : list FormatResult) :
  exists b1 b2,
    overallPassed l1 = Fulfilled b1
    /\ overallPassed l2 = Fulfilled b2
    /\ overallPassed (l1 ++ l2) = Fulfilled (b1 && b2)
    /\ overallPassed [] = Fulfilled true.
Proof.
  destruct (overallPassed_total l1) as (b1 & H1 & Hiff1).
  destruct (overallPassed_total l2) as (b2 & H2 & Hiff2).
  destruct (overallPassed_total (l1 ++ l2)) as (b & H & Hiff).
  exists b1, b2; split; [exact H1|]; split; [exact H2|]; split; [|reflexivity].
  rewrite H; f_equal.
  rewrite Exists_app in Hiff.
  destruct b1, b2, b; simpl; try reflexivity; exfalso.
  - destruct (proj1 Hiff eq_refl) as [He|He];
      [apply Hiff1 in He | apply Hiff2 in He]; discriminate.
  - assert (Hb : true = false) by (apply Hiff; right; now apply Hiff2).
    discriminate.
  - assert (Hb : true = false) by (apply Hiff; left; now apply Hiff1).
    discriminate.
  - assert (Hb : true = false) by (apply Hiff; left; now apply Hiff1).
    discriminate.
Qed.

(** X4.  The verdict does not depend on the order of the results. *)
Theorem verdict_of_permutation (l l' : list FormatResult) :
  Permutation l l' -> overallPassed l = overallPassed l'.
Proof.
  intros Hperm.
  destruct (overallPassed_total l) as (b & H & Hiff).
  destruct (overallPassed_total l') as (b' & H' & Hiff').
  rewrite H, H'; f_equal.
  assert (Hex : Exists spec_breaks l <-> Exists spec_breaks l').
  { rewrite !Exists_exists; split; intros (f & Hin & Hf); exists f; split; auto.
    - eapply Permutation_in; eauto.
    - eapply Permutation_in; [apply Permutation_sym|]; eauto. }
  destruct b, b'; try reflexivity.
  - apply Hiff; apply Hex; now apply Hiff'.
  - symmetry; apply Hiff'; apply Hex; now apply Hiff.
Qed.

Lemma verdict_of_permutation_witness :
  let r := Demo.rule "a" "error" [] "file-existence" None in
  let w := Demo.rule "w" "warning" [] "file-existence" None in
  overallPassed [CreateLintOnly w Demo.lintFailure; CreateIgnored r reasonOff;
                 CreateLintOnly r Demo.lintFailure]
  = overallPassed [CreateLintOnly r Demo.lintFailure;
                   CreateLintOnly w Demo.lintFailure; CreateIgnored r reasonOff].
Proof.
  intros r w; apply verdict_of_permutation.
  apply Permutation_sym, (Permutation_cons_app [_; _] []); reflexivity.
Defined.

(** ** A whole run *)

Lemma unsatisfied_callback (allRules allFixes : list string)
    (fileSystem : FileSystem) (dryRun : bool) (entries : list (string * Result))
    (r : RuleInfo) :
  level r <> "off" ->
  spec_unsatisfied (targetArray (TObject entries)) (where_ r) <> [] ->
  ruleCallback allRules allFixes fileSystem dryRun (TObject entries)
    (targetArray (TObject entries)) r
  = Return (CreateIgnored r
              (reasonUnsatisfied
                 (spec_unsatisfied (targetArray (TObject entries)) (where_ r)))).
Proof.
  intros Hl Hne; unfold ruleCallback.
  apply String.eqb_neq in Hl; rewrite Hl, ignoreReasons_spec.
  destruct (spec_unsatisfied _ _); [congruence | reflexivity].
Qed.

Lemma spec_unsatisfied_no_token (conditions : list string) :
  spec_unsatisfied [] conditions = conditions.
Proof.
  unfold spec_unsatisfied; induction conditions as [|c l IH]; simpl;
    [reflexivity | now f_equal].
Qed.

(** X5.  With plugins that fulfil with a Result or reject with a fault
    that has a message, and two turns or more, [lint] settles on every
    validated configuration.  A report has [errored = false] and one
    entry per descriptor of [parseConfig], in their order, and no axiom
    result when the configuration has no [axioms].  [lint] rejects only
    when [parseConfig] throws, before any call, or when an axiom plugin
    faults, and then with the fault of one of the axiom plugins: a fault
    of a rule or of a fix never makes it reject. *)
Theorem lint_settles {World : Type}
    (plugin : Call -> World -> Settled Result * World) (turns : nat)
    (allRules allFixes allAxioms : list string) (fileSystem : FileSystem)
    (ruleset : Config) (dryRun : bool) (m : Machine World) :
  exists out m',
    lint plugin (2 + turns) allRules allFixes allAxioms fileSystem ruleset dryRun m
      = Some (out, m')
    /\ (forall report,
           out = Fulfilled report ->
           errored report = false
           /\ parseConfig ruleset = Fulfilled (map ruleInfo (results report))
           /\ (config_axioms ruleset = None -> lint_targets report = []))
    /\ (forall e,
           out = Rejected e ->
           (parseConfig ruleset = Rejected e /\ m' = m)
           \/ exists axiomconfig axiomName,
                config_axioms ruleset = Some axiomconfig
                /\ In (axiomName, Rejected e)
                     (fst (axiomOutcomes plugin allAxioms fileSystem axiomconfig m))).
Proof.
  unfold lint.
  destruct (parseConfig ruleset) as [configParsed|e0] eqn:Hparse.
  2:{ exists (Rejected e0), m; split; [reflexivity|]; split.
      - intros report H; discriminate H.
      - intros e H; injection H as <-; left; split; reflexivity. }
  destruct (config_axioms ruleset) as [axiomconfig|] eqn:Hax.
  - change (2 + turns) with (S (S turns)).
    rewrite determineTargets_outcomes.
    destruct (first_fault (fst (axiomOutcomes plugin allAxioms fileSystem axiomconfig m)))
      as [e0|] eqn:Hff.
    + eexists; eexists; split; [reflexivity|]; split.
      * intros report H; discriminate H.
      * intros e H; injection H as <-; right.
        destruct (first_fault_member _ _ Hff) as (axiomName & Hin).
        exists axiomconfig, axiomName; split; [reflexivity | exact Hin].
    + destruct (runRuleset_total plugin allRules allFixes fileSystem dryRun turns
                  configParsed
                  (TObject (flatten (resolved
                     (fst (axiomOutcomes plugin allAxioms fileSystem axiomconfig m)))))
                  (snd (axiomOutcomes plugin allAxioms fileSystem axiomconfig m)))
        as (fs & m2 & Hrun & _ & Hinfo).
      change (S (S turns)) with (2 + turns); rewrite Hrun.
      destruct (overallPassed_total fs) as (v & -> & _).
      eexists; eexists; split; [reflexivity|]; split.
      * intros report H; injection H as <-; simpl.
        split; [reflexivity|]; split; [now rewrite Hinfo | discriminate].
      * intros e H; discriminate H.
  - destruct (runRuleset_total plugin allRules allFixes fileSystem dryRun turns
                configParsed (TObject []) m) as (fs & m2 & Hrun & _ & Hinfo).
    rewrite Hrun.
    destruct (overallPassed_total fs) as (v & -> & _).
    eexists; eexists; split; [reflexivity|]; split.
    + intros report H; injection H as <-; simpl.
      split; [reflexivity|]; split; [now rewrite Hinfo | reflexivity].
    + intros e H; discriminate H.
Qed.

(** X6.  A configuration without [axioms] is run against the empty
    object of axiom results, not against a boolean: each of its rules
    that is not ["off"] and has a condition is IGNORED, with all its
    conditions as the reason, and its plugin is not called. *)
Theorem conditions_without_axioms_ignored {World : Type}
    (plugin : Call -> World -> Settled Result * World) (turns : nat)
    (allRules allFixes allAxioms : list string) (fileSystem : FileSystem)
    (dryRun : bool) (m : Machine World)
    (rules : list (string * RuleEntry)) (i : nat) (key : string) (cfg : RuleEntry) :
  nth_error rules i = Some (key, cfg) ->
  cfg_level cfg <> "off" ->
  cfg_where cfg <> [] ->
  exists report m' r,
    lint plugin (2 + turns) allRules allFixes allAxioms fileSystem
      (ConfigV2 rules None) dryRun m = Some (Fulfilled report, m')
    /\ nth_error (results report) i
       = Some (CreateIgnored r (reasonUnsatisfied (cfg_where cfg)))
    /\ name r = key
    /\ reachesPlugin allRules (TObject []) r = false.
Proof.
  intros Hi Hl Hw.
  set (mk := fun '(name_, cfg) =>
               mkRuleInfo name_ (cfg_level cfg) (cfg_where cfg) (type (cfg_rule cfg))
                 (options (cfg_rule cfg)) (fix_type cfg) (fix_options cfg)
                 (cfg_policyInfo cfg) (cfg_policyUrl cfg)).
  assert (Hcb :
    ruleCallback allRules allFixes fileSystem dryRun (TObject [])
      (targetArray (TObject [])) (mk (key, cfg))
    = Return (CreateIgnored (mk (key, cfg)) (reasonUnsatisfied (cfg_where cfg)))).
  { rewrite unsatisfied_callback; simpl;
      rewrite ?spec_unsatisfied_no_token; auto. }
  destruct (runRuleset_slot plugin allRules allFixes fileSystem dryRun turns
              (map mk rules) (TObject []) m i (mk (key, cfg)) _
              ltac:(now rewrite nth_error_map, Hi) Hcb)
    as (fs & m' & Hrun & Hslot).
  destruct (overallPassed_total fs) as (v & Hv & _).
  exists (mkLintResult v false fs []), m', (mk (key, cfg)).
  split; [|split; [exact Hslot | split; [reflexivity|]]].
  - unfold lint; cbn [parseConfig config_axioms]; fold mk.
    now rewrite Hrun, Hv.
  - unfold reachesPlugin; simpl.
    apply String.eqb_neq in Hl; rewrite Hl; simpl.
    unfold ignoreReasons; simpl.
    destruct (cfg_where cfg); [congruence | reflexivity].
Qed.

Lemma conditions_without_axioms_ignored_witness :
  let rules :=
    [("license",
      mkRuleEntry "error" [] (mkPluginRef "always-pass" None) None None None);
     ("js-only",
      mkRuleEntry "error" ["language=a.js"; "language=*"]
        (mkPluginRef "file-existence" None) None None None)] in
  exists report m' r,
    lint Demo.plugin 2 Demo.allRules Demo.allFixes Demo.allAxioms Demo.fs
      (ConfigV2 rules None) false (0, []) = Some (Fulfilled report, m')
    /\ nth_error (results report) 1
       = Some (CreateIgnored r (reasonUnsatisfied ["language=a.js"; "language=*"]))
    /\ name r = "js-only".
Proof.
  intros rules.
  destruct (conditions_without_axioms_ignored Demo.plugin 0 Demo.allRules
              Demo.allFixes Demo.allAxioms Demo.fs false (0, []) rules 1 "js-only"
              (mkRuleEntry "error" ["language=a.js"; "language=*"]
                 (mkPluginRef "file-existence" None) None None None)
              eq_refl ltac:(discriminate) ltac:(discriminate))
    as (report & m' & r & Hrun & Hslot & Hname & _).
  exists report, m', r; split; [exact Hrun|]; split; [exact Hslot | exact Hname].
Defined.

(** ** Legacy configurations *)

Lemma lacks_tail (c d : ascii) (s : string) : lacks c (String d s) -> lacks c s.
Proof. intros H i; exact (H (S i)). Qed.

Lemma lacks_head (c d : ascii) (s : string) : lacks c (String d s) -> d <> c.
Proof. intros H Heq; apply (H 0); simpl; now rewrite Heq. Qed.

Lemma lacks_cons (c d : ascii) (s : string) :
  d <> c -> lacks c s -> lacks c (String d s).
Proof. intros Hd Hs [|i]; simpl; [congruence | apply Hs]. Qed.

Lemma split_colon_app (n s : string) :
  lacks ":" n -> split_colon (n ++ String ":" s) = n :: split_colon s.
Proof.
  induction n as [|c n IH]; intros Hn; [reflexivity|].
  simpl; rewrite IH by (eapply lacks_tail; eauto).
  apply lacks_head in Hn; apply Ascii.eqb_neq in Hn; now rewrite Hn.
Qed.

Lemma append_empty (s : string) : s ++ "" = s.
Proof. induction s as [|c s IH]; simpl; [reflexivity | now rewrite IH]. Qed.

Lemma split_colon_pieces (s : string) : Forall (lacks ":") (split_colon s).
Proof.
  induction s as [|c s IH]; simpl.
  - constructor; [intros i; destruct i; discriminate | constructor].
  - destruct (Ascii.eqb c ":") eqn:E.
    + constructor; [intros i; destruct i; discriminate | exact IH].
    + apply Ascii.eqb_neq in E.
      destruct (split_colon s) as [|piece rest];
        [constructor; [|constructor] | inversion IH; subst; constructor; auto].
      * apply lacks_cons; [exact E | intros i; destruct i; discriminate].
      * now apply lacks_cons.
Qed.

(** The pieces of a key, joined by [":"], are the key again. *)
Lemma join_split_colon (s : string) : join ":" (split_colon s) = s.
Proof.
  unfold join; induction s as [|c s IH]; [reflexivity|]; simpl.
  destruct (Ascii.eqb c ":") eqn:E.
  - apply Ascii.eqb_eq in E; subst c.
    destruct (split_colon s) as [|piece rest] eqn:Es;
      [now elim (split_colon_nonempty s)|].
    simpl in *; now rewrite IH.
  - destruct (split_colon s) as [|piece rest] eqn:Es;
      [now elim (split_colon_nonempty s)|].
    destruct rest; simpl in *; now rewrite <- IH.
Qed.

Lemma legacyRule_name (where_key key : string) (configray : string * option JSON) :
  exists rest,
    split_colon key = name (legacyRule where_key (key, configray)) :: rest.
Proof.
  unfold legacyRule; simpl.
  destruct (split_colon key) as [|piece rest] eqn:E;
    [now elim (split_colon_nonempty key) | simpl; eauto].
Qed.

(** X8.  The key ["name:type"] of a legacy rule.  The name is the part of
    the key before its first colon, and neither the name nor the type of
    the descriptor holds a colon.  When the part between the first colon
    and the next one (or the end) is not empty it is the type, and what
    follows a second colon is dropped; when it is empty, as in ["name:"],
    the type is the name. *)
Theorem legacy_key (where_key key : string) (configray : string * option JSON) :
  let r := legacyRule where_key (key, configray) in
  lacks ":" (name r)
  /\ lacks ":" (ruleType r)
  /\ (exists rest, key = name r ++ rest /\ (rest = "" \/ exists x, rest = ":" ++ x))
  /\ (forall n t rest,
         key = n ++ ":" ++ t ++ rest -> lacks ":" n -> lacks ":" t -> t <> "" ->
         rest = "" \/ (exists x, rest = ":" ++ x) ->
         name r = n /\ ruleType r = t)
  /\ (forall n rest,
         key = n ++ ":" ++ rest -> lacks ":" n ->
         rest = "" \/ (exists x, rest = ":" ++ x) ->
         name r = n /\ ruleType r = n).
Proof.
  intros r.
  assert (Hpieces := split_colon_pieces key).
  assert (Hjoin := join_split_colon key).
  unfold r, legacyRule; cbn [name ruleType].
  destruct (split_colon key) as [|piece rest] eqn:E;
    [now elim (split_colon_nonempty key)|].
  assert (Hp := Forall_inv Hpieces); assert (Hrest := Forall_inv_tail Hpieces).
  cbn [nth nth_error].
  split; [exact Hp|]; split; [|split; [|split]].
  - destruct rest as [|t rest]; simpl; [exact Hp|].
    assert (Ht := Forall_inv Hrest).
    destruct t; simpl; assumption.
  - unfold join in Hjoin; simpl in Hjoin.
    destruct rest as [|t rest].
    + exists ""; split; [now rewrite <- Hjoin, append_empty | now left].
    + eexists; split; [symmetry; exact Hjoin | right; eexists; reflexivity].
  - intros n t rest' Hkey Hn Ht Hne Hrest'.
    assert (Hs : split_colon key = n :: t :: match rest' with
                                              | "" => []
                                              | String _ x => split_colon x
                                              end).
    { rewrite Hkey.
      change (n ++ ":" ++ t ++ rest') with (n ++ String ":" (t ++ rest')).
      rewrite split_colon_app by exact Hn.
      destruct Hrest' as [->|(x & ->)].
      - rewrite append_empty.
        now rewrite split_colon_no_colon by exact Ht.
      - change (t ++ ":" ++ x) with (t ++ String ":" x).
        now rewrite split_colon_app by exact Ht. }
    rewrite Hs in E; injection E as <- <-; simpl.
    destruct t; [congruence | split; reflexivity].
  - intros n rest' Hkey Hn Hrest'.
    assert (Hs : split_colon key = n :: "" :: match rest' with
                                               | "" => []
                                               | String _ x => split_colon x
                                               end).
    { rewrite Hkey.
      change (n ++ ":" ++ rest') with (n ++ String ":" rest').
      rewrite split_colon_app by exact Hn.
      destruct Hrest' as [->|(x & ->)]; reflexivity. }
    rewrite Hs in E; injection E as <- <-; simpl; split; reflexivity.
Qed.

(** X7.  A legacy configuration with at least one group gives one
    descriptor per rule entry, group after group and rule after rule, as
    many as the groups hold rules.  The descriptor of an entry has the
    level of the entry, the options of the entry when they are truthy
    and the empty object otherwise, the part of the entry's key before
    its first colon as name, no fix and no policy text; its conditions
    are empty when the entry's own group is ["all"], and the key of the
    entry's own group otherwise. *)
Theorem legacy_descriptors
    (group : string * list (string * (string * option JSON)))
    (groups : list (string * list (string * (string * option JSON))))
    (axioms : option (list (string * string))) :
  exists ruleset,
    parseConfig (ConfigLegacy (group :: groups) axioms) = Fulfilled ruleset
    /\ length ruleset = list_sum (map (fun g => length (snd g)) (group :: groups))
    /\ Forall2
         (fun (entry : string * (string * (string * option JSON))) (r : RuleInfo) =>
            let groupKey := fst entry in
            let ruleKey := fst (snd entry) in
            let level_ := fst (snd (snd entry)) in
            let opts := snd (snd (snd entry)) in
            level r = level_
            /\ where_ r = (if groupKey =? "all" then [] else [groupKey])
            /\ (json_truthy opts = true -> ruleConfig r = opts)
            /\ (json_truthy opts = false -> ruleConfig r = Some emptyObject)
            /\ (exists rest, split_colon ruleKey = name r :: rest)
            /\ fixType r = None /\ fixConfig r = None
            /\ policyInfo r = None /\ policyUrl r = None)
         (legacyEntries (group :: groups)) ruleset.
Proof.
  eexists; split; [apply parseConfig_legacy|].
  unfold legacyEntries.
  generalize (group :: groups) as all; intros all; split.
  - induction all as [|g all IH]; simpl; [reflexivity|].
    now rewrite length_app, length_map, IH.
  - induction all as [|[groupKey rules] all IH]; simpl; [constructor|].
    apply Forall2_app; [clear IH | exact IH].
    induction rules as [|[ruleKey [level_ opts]] rules IHr]; simpl;
      constructor; [|exact IHr].
    cbn [fst snd].
    unfold legacyRule;
      cbn [level ruleConfig fixType fixConfig policyInfo policyUrl where_ name fst snd].
    split; [reflexivity|].
    split; [reflexivity|].
    split; [intros ->; reflexivity|].
    split; [intros ->; reflexivity|].
    split; [|repeat split].
    destruct (split_colon ruleKey) as [|piece rest] eqn:E;
      [now elim (split_colon_nonempty ruleKey) | simpl; eauto].
Qed.

(** ** Axiom resolution, further *)

Lemma axiomOutcomes_log {World : Type}
    (plugin : Call -> World -> Settled Result * World)
    (allAxioms : list string) (fs : FileSystem)
    (axiomconfig : list (string * string)) (m : Machine World) :
  snd (snd (axiomOutcomes plugin allAxioms fs axiomconfig m))
  = (snd m ++ map (fun axiomId => InvokeAxiom axiomId fs)
               (filter (hasOwnProperty allAxioms) (map fst axiomconfig)))%list.
Proof.
  revert m; induction axiomconfig as [|[axiomId axiomName] rest IH]; intros m;
    [simpl; now rewrite app_nil_r|].
  cbn [axiomOutcomes map filter fst].
  destruct (hasOwnProperty allAxioms axiomId).
  - destruct (plugin (InvokeAxiom axiomId fs) (fst m)) as [outcome w].
    specialize (IH (w, (snd m ++ [InvokeAxiom axiomId fs])%list)).
    destruct (axiomOutcomes plugin allAxioms fs rest _) as [o1 m1].
    simpl in *; now rewrite IH, <- app_assoc.
  - specialize (IH m).
    destruct (axiomOutcomes plugin allAxioms fs rest m) as [o1 m1].
    exact IH.
Qed.

(** X9.  [determineTargets] settles in one turn, and it calls the plugin of
    every registered identifier of the configuration exactly once, in the
    order of the entries, with the file system: an identifier that is not
    registered is not called, and a fault of one plugin does not keep the
    plugins of the later entries from being called. *)
Theorem determineTargets_calls {World : Type}
    (plugin : Call -> World -> Settled Result * World) (turns : nat)
    (allAxioms : list string) (axiomconfig : list (string * string))
    (fs : FileSystem) (m : Machine World) :
  exists out m',
    determineTargets plugin (S turns) allAxioms axiomconfig fs m = Some (out, m')
    /\ snd m' = (snd m ++ map (fun axiomId => InvokeAxiom axiomId fs)
                            (filter (hasOwnProperty allAxioms)
                                    (map fst axiomconfig)))%list.
Proof.
  rewrite determineTargets_outcomes.
  eexists; eexists; split; [reflexivity|]; apply axiomOutcomes_log.
Qed.

Lemma assign_keys {V : Type} (a : list (string * V)) (k : string) (v : V) :
  map fst (assign a k v)
  = (if existsb (String.eqb k) (map fst a) then map fst a
     else map fst a ++ [k])%list.
Proof.
  induction a as [|[k' v'] a IH]; simpl; [reflexivity|].
  rewrite (String.eqb_sym k k').
  destruct (k' =? k) eqn:E; simpl; [reflexivity|].
  rewrite IH; now destruct (existsb (String.eqb k) (map fst a)).
Qed.

Lemma flatten_keys (l a : list (string * Result)) :
  NoDup (map fst a) ->
  NoDup (map fst (fold_left (fun a '(k, v) => assign a k v) l a))
  /\ forall key,
      In key (map fst (fold_left (fun a '(k, v) => assign a k v) l a))
      <-> In key (map fst a) \/ In key (map fst l).
Proof.
  revert a; induction l as [|[k v] l IH]; intros a Ha; simpl.
  - split; [exact Ha | intros key; tauto].
  - assert (Hk : NoDup (map fst (assign a k v))
                 /\ forall key, In key (map fst (assign a k v))
                                <-> In key (map fst a) \/ k = key).
    { rewrite assign_keys.
      destruct (existsb (String.eqb k) (map fst a)) eqn:E.
      - split; [exact Ha|]; intros key; split; [tauto|].
        intros [H|<-]; [exact H|].
        now apply (hasOwnProperty_In (map fst a) k).
      - split.
        + apply NoDup_app; [exact Ha | repeat constructor; intros [] | ].
          intros x Hx [Heq|[]]; subst x.
          apply (hasOwnProperty_In (map fst a) k) in Hx.
          unfold hasOwnProperty in Hx; congruence.
        + intros key; rewrite in_app_iff; simpl; tauto. }
    destruct Hk as (Hnd & Hin).
    destruct (IH _ Hnd) as (Hnd' & Hin').
    split; [exact Hnd'|].
    intros key; rewrite Hin', Hin; tauto.
Qed.

Lemma property_defined {V : Type} (a : list (string * V)) (k : string) :
  (exists v, property a k = Some v) <-> In k (map fst a).
Proof.
  induction a as [|[k' v'] a IH]; simpl.
  - split; [intros (v & H); discriminate | intros []].
  - destruct (k' =? k) eqn:E.
    + apply String.eqb_eq in E; split; [now left | eauto].
    + apply String.eqb_neq in E; rewrite IH; split; [now right|].
      intros [H|H]; [contradiction | exact H].
Qed.

(** X10.  The object that [determineTargets] fulfils with has one property
    for each name of the configuration and no other: the names are its
    keys, without repetition, so it holds at most as many Results as the
    configuration has entries, and a name is defined in it exactly when
    an entry reports under that name. *)
Theorem determineTargets_object {World : Type}
    (plugin : Call -> World -> Settled Result * World) (turns : nat)
    (allAxioms : list string) (axiomconfig : list (string * string))
    (fs : FileSystem) (m m' : Machine World) (object : list (string * Result)) :
  determineTargets plugin (S turns) allAxioms axiomconfig fs m
    = Some (Fulfilled object, m') ->
  NoDup (map fst object)
  /\ (forall axiomName,
         In axiomName (map fst object) <-> In axiomName (map snd axiomconfig))
  /\ (forall axiomName,
         (exists res, property object axiomName = Some res)
         <-> In axiomName (map snd axiomconfig))
  /\ length object <= length axiomconfig.
Proof.
  rewrite determineTargets_outcomes; intros Hrun.
  destruct (first_fault (fst (axiomOutcomes plugin allAxioms fs axiomconfig m)))
    eqn:Hff; [discriminate|].
  injection Hrun as <- _.
  destruct (flatten_keys
              (resolved (fst (axiomOutcomes plugin allAxioms fs axiomconfig m))) []
              (NoDup_nil _)) as (Hnd & Hin).
  fold (flatten (resolved (fst (axiomOutcomes plugin allAxioms fs axiomconfig m))))
    in Hnd, Hin.
  rewrite resolved_all, axiomOutcomes_names in Hin by exact Hff.
  assert (Hkeys : forall axiomName,
             In axiomName
                (map fst (flatten (resolved
                   (fst (axiomOutcomes plugin allAxioms fs axiomconfig m)))))
             <-> In axiomName (map snd axiomconfig)).
  { intros axiomName; rewrite Hin; simpl; tauto. }
  split; [exact Hnd|]; split; [exact Hkeys|]; split.
  - intros axiomName; rewrite property_defined; apply Hkeys.
  - rewrite <- (length_map fst), <- (length_map snd axiomconfig).
    apply NoDup_incl_length; [exact Hnd|].
    intros x Hx; now apply Hkeys.
Qed.

Lemma determineTargets_object_witness :
  exists object m',
    determineTargets Demo.plugin 1 Demo.allAxioms
      [("nope", "language"); ("linguist", "language"); ("other", "packager")]
      Demo.fs (0, []) = Some (Fulfilled object, m')
    /\ NoDup (map fst object)
    /\ length object <= 3.
Proof.
  destruct (determineTargets Demo.plugin 1 Demo.allAxioms
              [("nope", "language"); ("linguist", "language"); ("other", "packager")]
              Demo.fs (0, [])) as [[[object|e] m']|] eqn:Hrun;
    try (vm_compute in Hrun; discriminate Hrun).
  destruct (determineTargets_object Demo.plugin 0 Demo.allAxioms _ Demo.fs (0, [])
              m' object Hrun) as (Hnd & _ & _ & Hlen).
  exists object, m'; split; [reflexivity|]; split; [exact Hnd | exact Hlen].
Defined.

(** ** Conditions that no token can match *)

Lemma get_append_length (a b : string) (c : ascii) :
  String.get (String.length a) (a ++ String c b) = Some c.
Proof. induction a as [|d a IH]; simpl; [reflexivity | exact IH]. Qed.

Lemma token_has_equals (t : AxiomTargets) (tok : string) :
  In tok (targetArray t) -> ~ lacks "=" tok.
Proof.
  destruct t as [b|entries]; [intros []|].
  rewrite targetArray_flat_map, in_flat_map.
  intros ([axiomName res] & _ & Hin) Hlacks; simpl in Hin.
  destruct (passed res); [|destruct Hin].
  destruct Hin as [<-|Hin].
  - apply (Hlacks (String.length axiomName)).
    exact (get_append_length axiomName "*" "=").
  - apply in_map_iff in Hin; destruct Hin as (tg & <- & _).
    apply (Hlacks (String.length axiomName)).
    exact (get_append_length axiomName (template (path tg)) "=").
Qed.

(** X11.  Every token holds the character ["="].  So a condition without
    ["="], such as a bare language name, matches no token whatever the
    axioms report: with an axiom-result object, a rule that is not ["off"]
    and has such a condition is IGNORED, the condition among those of the
    reason, and its plugin is not called. *)
Theorem condition_without_equals_ignored
    (allRules allFixes : list string) (fileSystem : FileSystem) (dryRun : bool)
    (entries : list (string * Result)) (r : RuleInfo) (cond : string) :
  level r <> "off" ->
  In cond (where_ r) ->
  lacks "=" cond ->
  exists conditions,
    ruleCallback allRules allFixes fileSystem dryRun (TObject entries)
      (targetArray (TObject entries)) r
    = Return (CreateIgnored r (reasonUnsatisfied conditions))
    /\ In cond conditions
    /\ reachesPlugin allRules (TObject entries) r = false.
Proof.
  intros Hl Hin Hlacks.
  assert (Hun : In cond (spec_unsatisfied (targetArray (TObject entries)) (where_ r))).
  { apply spec_unsatisfied_In; split; [exact Hin|].
    intros Htok; now apply token_has_equals in Htok. }
  exists (spec_unsatisfied (targetArray (TObject entries)) (where_ r)).
  split; [|split; [exact Hun|]].
  - apply unsatisfied_callback; [exact Hl|].
    intros E; rewrite E in Hun; destruct Hun.
  - unfold reachesPlugin; rewrite ignoreReasons_spec.
    destruct (spec_unsatisfied _ _); [destruct Hun|].
    cbn [not_boolean length Nat.ltb Nat.leb andb negb].
    now rewrite andb_false_r.
Qed.

Lemma condition_without_equals_ignored_witness :
  let r := legacyRule "javascript" ("license:file-existence", ("error", None)) in
  exists conditions,
    ruleCallback Demo.allRules Demo.allFixes Demo.fs false
      (TObject [("language", Demo.languages)])
      (targetArray (TObject [("language", Demo.languages)])) r
    = Return (CreateIgnored r (reasonUnsatisfied conditions))
    /\ In "javascript" conditions.
Proof.
  intros r.
  destruct (condition_without_equals_ignored Demo.allRules Demo.allFixes Demo.fs
              false [("language", Demo.languages)] r "javascript")
    as (conditions & Hcb & Hin & _).
  - discriminate.
  - simpl; tauto.
  - intros i; do 11 (destruct i as [|i]; [discriminate|]); discriminate.
  - exists conditions; split; [exact Hcb | exact Hin].
Defined.

(** ** The plugin registries *)

Lemma loadRegistry_fold (directory_ : string) (names : list string)
    (p : list (string * Loader)) (key : string) :
  (forall l, property p key = Some l -> l = mkLoader directory_ key) ->
  (forall l,
      property (fold_left (fun p '(name_, require) => assign p name_ require)
                          (map (fun f => (f, mkLoader directory_ f)) names) p) key
      = Some l ->
      l = mkLoader directory_ key)
  /\ ((exists l,
         property (fold_left (fun p '(name_, require) => assign p name_ require)
                             (map (fun f => (f, mkLoader directory_ f)) names) p) key
         = Some l)
      <-> (exists l, property p key = Some l) \/ In key names).
Proof.
  revert p; induction names as [|f names IH]; intros p Hp; simpl.
  - split; [exact Hp | tauto].
  - destruct (IH (assign p f (mkLoader directory_ f))) as (Hval & Hdef).
    + intros l; destruct (String.eqb_spec f key) as [->|Hne].
      * rewrite property_assign_same; now intros [= <-].
      * rewrite property_assign_other by exact Hne; apply Hp.
    + split; [exact Hval|]; rewrite Hdef.
      destruct (String.eqb_spec f key) as [->|Hne].
      * rewrite property_assign_same; split; [intros _; right; now left|].
        intros _; left; eauto.
      * rewrite property_assign_other by exact Hne; split; [tauto|].
        intros [H|[H|H]]; [now left | contradiction | now right].
Qed.

(** X13.  The registry built by [loadRules], [loadFixes] or [loadAxioms]
    has a property exactly for the listed names, and the loader stored
    under a name loads the file of that name from the directory of the
    registry: the test [hasOwnProperty] of the dispatch accepts a type
    exactly when it is listed, whatever the order and the repetitions of
    the list. *)
Theorem registry_lookup (directory_ : string) (names : list string) (key : string) :
  hasOwn (loadRegistry directory_ names) key = hasOwnProperty names key
  /\ (In key names ->
      property (loadRegistry directory_ names) key = Some (mkLoader directory_ key))
  /\ (~ In key names -> property (loadRegistry directory_ names) key = None).
Proof.
  destruct (loadRegistry_fold directory_ names [] key) as (Hval & Hdef);
    [intros l H; discriminate H|].
  fold (loadRegistry directory_ names) in Hval, Hdef.
  assert (Hin : In key names ->
                property (loadRegistry directory_ names) key
                = Some (mkLoader directory_ key)).
  { intros H.
    destruct (proj2 Hdef (or_intror H)) as (l & Hl).
    now rewrite Hl, (Hval l Hl). }
  assert (Hout : ~ In key names -> property (loadRegistry directory_ names) key = None).
  { intros H.
    destruct (property (loadRegistry directory_ names) key) as [l|] eqn:E;
      [|reflexivity].
    destruct (proj1 Hdef (ex_intro _ l eq_refl)) as [(l' & Hl')|Hin'];
      [discriminate Hl' | contradiction]. }
  split; [|repeat split; auto].
  unfold hasOwn.
  destruct (in_dec string_dec key names) as [Hy|Hn].
  - rewrite (Hin Hy); symmetry; now apply hasOwnProperty_In.
  - rewrite (Hout Hn); symmetry.
    destruct (hasOwnProperty names key) eqn:E; [|reflexivity].
    apply hasOwnProperty_In in E; contradiction.
Qed.

(** ** Validation and loading of the configuration *)

Lemma gather_Fulfilled {A : Type} (promises : list (Settled A)) (vs : list A) :
  gather promises = Fulfilled vs <-> promises = map Fulfilled vs.
Proof.
  revert vs; induction promises as [|[a|e] promises IH]; intros vs; simpl.
  - split; [intros [= <-]; reflexivity | destruct vs; [reflexivity | discriminate]].
  - destruct (gather promises) as [l|e] eqn:E.
    + split.
      * intros [= <-]; simpl; f_equal; now apply IH.
      * destruct vs as [|v vs]; [discriminate|]; simpl; intros [= -> H].
        apply IH in H; now injection H as ->.
    + split; [discriminate|].
      destruct vs as [|v vs]; [discriminate|]; simpl; intros [= -> H].
      apply IH in H; discriminate H.
  - split; [discriminate | destruct vs; discriminate].
Qed.

Lemma gather_Rejected {A : Type} (promises : list (Settled A)) :
  (exists e, gather promises = Rejected e) <-> exists e, In (Rejected e) promises.
Proof.
  induction promises as [|[a|e] promises IH]; simpl.
  - split; [intros (e & H); discriminate | intros (e & [])].
  - destruct (gather promises) as [l|e'] eqn:E.
    + split; [intros (e & H); discriminate|].
      intros (e & [H|H]); [discriminate|].
      destruct (proj2 IH (ex_intro _ e H)) as (e'' & He); discriminate.
    + split; [|eauto].
      intros _; destruct (proj1 IH (ex_intro _ e' eq_refl)) as (e'' & He); eauto.
  - split; [intros _; exists e; now left | eauto].
Qed.

Section LoadingFacts.

Variable readJson : string -> string -> Settled JSON.
Context {Ajv : Type}.
Variable addSchemas : list JSON -> Settled Ajv.
Variable compile : Ajv -> JSON -> Settled (option JSON -> Validation).
Variables (Rules Fixes : list string).
Variable resolve : string -> string -> string.
Variable extname : string -> string.
Variable findConfig : string -> string -> option string.
Variable defaultRuleset : string.
Variable readFile : string -> Settled string.
Variables (safeLoad JSON_parse : string -> Settled (option JSON)).
Variable toString : Fault -> string.

(** A result of [validateConfig] is [passed] without an error text, or not
    [passed] with one. *)
Lemma validateConfig_result (config : option JSON) (val : ValidationResult) :
  validateConfig readJson addSchemas compile Rules Fixes config = Fulfilled val ->
  val = mkValidationResult true None
  \/ (val_passed val = false /\ exists msg, val_error val = Some msg).
Proof.
  unfold validateConfig.
  destruct (gather _); [|discriminate].
  destruct (addSchemas _); [|discriminate].
  destruct (readJson "rulesets" "schema.json"); [|discriminate].
  destruct (compile _ _) as [validator|]; [|discriminate].
  destruct (negb (valid (validator config))); intros [= <-]; [right | left]; simpl; eauto.
Qed.

(** X14.  [validateConfig] fails closed.  When it fulfils, the schema of
    every listed rule and of every listed fix and the schema of the
    ruleset have been read, the fix schemas then the rule schemas have
    been added, and the compiled validator has been asked: [passed] is
    its answer, without an error text when it accepts, and otherwise with
    the heading followed by one line per error, the path and the message
    of the error.  When a schema cannot be read, [validateConfig]
    rejects. *)
Theorem validateConfig_fail_closed (config : option JSON) :
  (forall val,
      validateConfig readJson addSchemas compile Rules Fixes config = Fulfilled val ->
      exists fixSchemas ruleSchemas ajvProps schema validator,
        map (fun f => readJson "fixes" (f ++ "-config.json")) Fixes
          = map Fulfilled fixSchemas
        /\ map (fun rs => readJson "rules" (rs ++ "-config.json")) Rules
           = map Fulfilled ruleSchemas
        /\ addSchemas (fixSchemas ++ ruleSchemas)%list = Fulfilled ajvProps
        /\ readJson "rulesets" "schema.json" = Fulfilled schema
        /\ compile ajvProps schema = Fulfilled validator
        /\ val_passed val = valid (validator config)
        /\ val_error val
           = (if valid (validator config) then None
              else Some ("Configuration validation failed with errors: "
                           ++ newline
                           ++ join newline
                                (map (fun e => tab ++ "configuration" ++ dataPath e
                                                 ++ " " ++ ajv_message e)
                                     (errors (validator config))))))
  /\ ((exists name_ e,
          (In name_ Rules /\ readJson "rules" (name_ ++ "-config.json") = Rejected e)
          \/ (In name_ Fixes /\ readJson "fixes" (name_ ++ "-config.json") = Rejected e))
      -> exists e, validateConfig readJson addSchemas compile Rules Fixes config
                   = Rejected e).
Proof.
  unfold validateConfig; split.
  - intros val H; simpl in H.
    destruct (gather (map (fun f => readJson "fixes" (f ++ "-config.json")) Fixes))
      as [fixSchemas|e] eqn:Ef; [|discriminate].
    destruct (gather (map (fun rs => readJson "rules" (rs ++ "-config.json")) Rules))
      as [ruleSchemas|e] eqn:Er; [|discriminate].
    unfold reduce_concat_init in H; simpl in H.
    destruct (addSchemas (fixSchemas ++ ruleSchemas)%list) as [ajvProps|e] eqn:Ea;
      [|discriminate].
    destruct (readJson "rulesets" "schema.json") as [schema|e] eqn:Es; [|discriminate].
    destruct (compile ajvProps schema) as [validator|e] eqn:Ec; [|discriminate].
    exists fixSchemas, ruleSchemas, ajvProps, schema, validator.
    apply gather_Fulfilled in Ef; apply gather_Fulfilled in Er.
    repeat (split; [first [assumption | reflexivity]|]).
    destruct (valid (validator config)); simpl in H; injection H as <-; split; reflexivity.
  - intros (name_ & e & Hbad); simpl.
    destruct (gather (map (fun f => readJson "fixes" (f ++ "-config.json")) Fixes))
      as [fixSchemas|e1] eqn:Ef; [|eauto].
    destruct (gather (map (fun rs => readJson "rules" (rs ++ "-config.json")) Rules))
      as [ruleSchemas|e2] eqn:Er; [|eauto].
    exfalso; apply gather_Fulfilled in Ef; apply gather_Fulfilled in Er.
    destruct Hbad as [(Hin & Hread)|(Hin & Hread)].
    + assert (H : In (Rejected e) (map Fulfilled ruleSchemas)).
      { rewrite <- Er; apply in_map_iff; eauto. }
      apply in_map_iff in H; destruct H as (s & H & _); discriminate H.
    + assert (H : In (Rejected e) (map Fulfilled fixSchemas)).
      { rewrite <- Ef; apply in_map_iff; eauto. }
      apply in_map_iff in H; destruct H as (s & H & _); discriminate H.
Qed.

(** X15.  The ruleset that [lint] uses.  A given path is resolved against
    the target directory, whatever the repository holds.  When no ruleset
    is given, the file is the first one found among [repolint.json],
    [repolint.yaml], [repolint.yml], [repolinter.json],
    [repolinter.yaml] and [repolinter.yml], in this order, and the
    default ruleset of the package when none is found: some file is
    always read.  A ruleset object is used as it is, and no file is
    read. *)
Theorem ruleset_discovery (targetDir_ : string) :
  (forall s,
      rulesetPathOf resolve findConfig defaultRuleset targetDir_ (JStr s)
      = Some (resolve targetDir_ s))
  /\ (forall before name_ after p,
         candidates = (before ++ name_ :: after)%list ->
         Forall (fun n => truthy (findConfig n targetDir_) = false) before ->
         findConfig name_ targetDir_ = Some p -> p <> "" ->
         rulesetPathOf resolve findConfig defaultRuleset targetDir_ JNull = Some p)
  /\ (Forall (fun n => truthy (findConfig n targetDir_) = false) candidates ->
      rulesetPathOf resolve findConfig defaultRuleset targetDir_ JNull
      = Some defaultRuleset)
  /\ rulesetPathOf resolve findConfig defaultRuleset targetDir_ JNull <> None
  /\ (forall members filterPaths_,
         rulesetPathOf resolve findConfig defaultRuleset targetDir_ (JObj members)
         = None
         /\ lintHead readJson addSchemas compile Rules Fixes resolve extname
              findConfig defaultRuleset readFile safeLoad JSON_parse toString
              targetDir_ filterPaths_ (JObj members)
            = match validateConfig readJson addSchemas compile Rules Fixes
                      (Some (JObj members)) with
              | Rejected e => Rejected e
              | Fulfilled val =>
                  if val_passed val
                  then Fulfilled (Continue None (Some (JObj members)))
                  else Fulfilled
                         (Report
                            (mkErrorReport targetDir_ filterPaths_ None
                               (Some (JObj members)) false true (val_error val)
                               [] [] (property members "formatOptions")))
              end).
Proof.
  split; [reflexivity|]; split; [|split; [|split]].
  - intros before name_ after p Hc Hbefore Hfound Hp.
    assert (Ht : truthy (findConfig name_ targetDir_) = true)
      by (rewrite Hfound; destruct p; [congruence | reflexivity]).
    unfold rulesetPathOf, candidates in *; simpl.
    repeat (destruct before as [|? before];
            [injection Hc as <- _; unfold or_else;
             repeat match goal with
               | H : Forall _ (_ :: _) |- _ =>
                   let H1 := fresh in let H2 := fresh in
                   inversion H as [|? ? H1 H2]; subst; clear H; rewrite H1
               end;
             now rewrite Ht
            | injection Hc as <- Hc]).
    destruct before; discriminate Hc.
  - unfold rulesetPathOf, candidates; simpl; intros H.
    repeat match goal with
      | H : Forall _ (_ :: _) |- _ =>
          let H1 := fresh in let H2 := fresh in
          inversion H as [|? ? H1 H2]; subst; clear H
      end.
    unfold or_else.
    repeat match goal with H : truthy _ = false |- _ => rewrite H; clear H end.
    reflexivity.
  - unfold rulesetPathOf; simpl; unfold or_else.
    repeat match goal with
      | |- context [truthy (findConfig ?n targetDir_)] =>
          let E := fresh in
          destruct (truthy (findConfig n targetDir_)) eqn:E;
          [intros Hnone; rewrite Hnone in E; discriminate E|]
      end.
    discriminate.
  - intros members filterPaths_; split; [reflexivity|].
    unfold lintHead; simpl.
    destruct (validateConfig _ _ _ _ _ _) as [val|e]; [|reflexivity].
    destruct (val_passed val); reflexivity.
Qed.

(** X16.  When the file of the ruleset cannot be read or parsed: for a
    ruleset given as a path, or as [false] or [0], [lint] returns the
    report of the failure, [errored], not [passed], without results, with
    the text of the fault; for a ruleset that is not given, that is
    [null], building the report reads [formatOptions] of [null], and
    [lint] rejects with that TypeError in place of a report. *)
Theorem load_failure (targetDir_ : string) (filterPaths_ : list string)
    (ruleset : JSON) (p : string) (e : Fault) :
  rulesetPathOf resolve findConfig defaultRuleset targetDir_ ruleset = Some p ->
  readRuleset extname readFile safeLoad JSON_parse p = Rejected e ->
  lintHead readJson addSchemas compile Rules Fixes resolve extname findConfig
    defaultRuleset readFile safeLoad JSON_parse toString
    targetDir_ filterPaths_ ruleset
  = match ruleset with
    | JNull => Rejected (mkFault "Cannot read property 'formatOptions' of null")
    | _ =>
        Fulfilled
          (Report
             (mkErrorReport targetDir_ filterPaths_ (Some p) (Some ruleset)
                false true (Some (toString e)) [] [] None))
    end.
Proof.
  intros Hpath Hread; unfold lintHead; rewrite Hpath, Hread.
  destruct ruleset as [|b|n|s|items|members]; try reflexivity.
  unfold rulesetPathOf in Hpath; simpl in Hpath; discriminate Hpath.
Qed.

(** X17.  What the head of [lint] hands over.  A report that it returns
    is [errored] and not [passed], has no result and no axiom result,
    carries an error text and echoes the target directory, the filter
    paths and the path of the ruleset.  When it goes on to the rules, the
    ruleset is the given object, or what the file at the path of the
    ruleset parsed to, and [validateConfig] has accepted it. *)
Theorem lintHead_outcomes (targetDir_ : string) (filterPaths_ : list string)
    (ruleset : JSON) :
  let head :=
    lintHead readJson addSchemas compile Rules Fixes resolve extname findConfig
      defaultRuleset readFile safeLoad JSON_parse toString
      targetDir_ filterPaths_ ruleset in
  let rulesetPath := rulesetPathOf resolve findConfig defaultRuleset targetDir_ ruleset in
  (forall report,
      head = Fulfilled (Report report) ->
      report_passed report = false /\ report_errored report = true
      /\ report_results report = [] /\ report_targets report = []
      /\ (exists msg, errMsg report = Some msg)
      /\ params_targetDir report = targetDir_
      /\ params_filterPaths report = filterPaths_
      /\ params_rulesetPath report = rulesetPath)
  /\ (forall p ruleset',
         head = Fulfilled (Continue p ruleset') ->
         p = rulesetPath
         /\ match p with
            | Some path_ =>
                readRuleset extname readFile safeLoad JSON_parse path_
                = Fulfilled ruleset'
            | None => ruleset' = Some ruleset
            end
         /\ validateConfig readJson addSchemas compile Rules Fixes ruleset'
            = Fulfilled (mkValidationResult true None)).
Proof.
  intros head rulesetPath; unfold head, lintHead; fold rulesetPath.
  assert (Hval : forall ruleset' val,
             validateConfig readJson addSchemas compile Rules Fixes ruleset'
               = Fulfilled val ->
             (val_passed val = true -> val = mkValidationResult true None)
             /\ (val_passed val = false -> exists msg, val_error val = Some msg)).
  { intros ruleset' val H.
    destruct (validateConfig_result ruleset' val H) as [->|(Hp & Hmsg)];
      split; intros Hq; try reflexivity; try discriminate; congruence. }
  assert (Hreport : forall path_ ruleset' msg report,
             errorReport targetDir_ filterPaths_ path_ ruleset' msg
               = Fulfilled (Report report) ->
             report_passed report = false /\ report_errored report = true
             /\ report_results report = [] /\ report_targets report = []
             /\ errMsg report = msg
             /\ params_targetDir report = targetDir_
             /\ params_filterPaths report = filterPaths_
             /\ params_rulesetPath report = path_).
  { intros path_ ruleset' msg report; unfold errorReport.
    destruct (getProperty ruleset' "formatOptions"); [|discriminate].
    intros [= <-]; repeat split. }
  assert (Hcontinue : forall path_ ruleset' msg p r,
             errorReport targetDir_ filterPaths_ path_ ruleset' msg
               <> Fulfilled (Continue p r)).
  { intros path_ ruleset' msg p r; unfold errorReport.
    destruct (getProperty ruleset' "formatOptions"); discriminate. }
  split.
  - intros report.
    destruct rulesetPath as [path_|] eqn:Epath.
    + destruct (readRuleset extname readFile safeLoad JSON_parse path_)
        as [loaded|e] eqn:Eread.
      * destruct (validateConfig _ _ _ _ _ loaded) as [val|e] eqn:Ev; [|discriminate].
        destruct (val_passed val) eqn:Ep; simpl; [discriminate|].
        intros H; apply Hreport in H.
        destruct (proj2 (Hval _ _ Ev) Ep) as (msg & Hmsg).
        rewrite Hmsg in H; decompose [and] H; repeat split; eauto.
      * destruct (errorReport _ _ _ _ _) as [[p r|report']|e'] eqn:Er;
          [now elim (Hcontinue _ _ _ _ _ Er) | | discriminate].
        intros H; injection H as H; subst report'; apply Hreport in Er.
        decompose [and] Er; repeat split; eauto.
    + destruct (validateConfig _ _ _ _ _ (Some ruleset)) as [val|e] eqn:Ev;
        [|discriminate].
      destruct (val_passed val) eqn:Ep; simpl; [discriminate|].
      intros H; apply Hreport in H.
      destruct (proj2 (Hval _ _ Ev) Ep) as (msg & Hmsg).
      rewrite Hmsg in H; decompose [and] H; repeat split; eauto.
  - intros p ruleset'.
    destruct rulesetPath as [path_|] eqn:Epath.
    + destruct (readRuleset extname readFile safeLoad JSON_parse path_)
        as [loaded|e] eqn:Eread.
      * destruct (validateConfig _ _ _ _ _ loaded) as [val|e] eqn:Ev; [|discriminate].
        destruct (val_passed val) eqn:Ep; simpl.
        -- intros [= <- <-]; split; [reflexivity|]; split; [exact Eread|].
           now rewrite Ev, (proj1 (Hval _ _ Ev) Ep).
        -- intros H; now apply Hcontinue in H.
      * destruct (errorReport _ _ _ _ _) as [[p' r|report']|e'] eqn:Er;
          [now elim (Hcontinue _ _ _ _ _ Er) | discriminate | discriminate].
    + destruct (validateConfig _ _ _ _ _ (Some ruleset)) as [val|e] eqn:Ev;
        [|discriminate].
      destruct (val_passed val) eqn:Ep; simpl.
      * intros [= <- <-]; split; [reflexivity|]; split; [reflexivity|].
        now rewrite Ev, (proj1 (Hval _ _ Ev) Ep).
      * intros H; now apply Hcontinue in H.
Qed.

End LoadingFacts.

Lemma load_failure_witness :
  DemoLoading.lintHead "/bad" [] JNull
  = Rejected (mkFault "Cannot read property 'formatOptions' of null")
  /\ DemoLoading.lintHead "/repo" ["src"] (JStr "missing.json")
     = Fulfilled
         (Report
            (mkErrorReport "/repo" ["src"] (Some "/repo/missing.json")
               (Some (JStr "missing.json")) false true
               (Some "Error: ENOENT: no such file or directory") [] [] None)).
Proof.
  split.
  - exact (load_failure DemoLoading.readJson DemoLoading.addSchemas
             DemoLoading.compile ["file-existence"] ["file-create"]
             DemoLoading.resolve DemoLoading.extname DemoLoading.findConfig
             "/pkg/rulesets/default.json" DemoLoading.readFile
             DemoLoading.safeLoad DemoLoading.JSON_parse DemoLoading.toString
             "/bad" [] JNull "/bad/repolint.json"
             (mkFault "Unexpected token } in JSON at position 1")
             eq_refl eq_refl).
  - exact (load_failure DemoLoading.readJson DemoLoading.addSchemas
             DemoLoading.compile ["file-existence"] ["file-create"]
             DemoLoading.resolve DemoLoading.extname DemoLoading.findConfig
             "/pkg/rulesets/default.json" DemoLoading.readFile
             DemoLoading.safeLoad DemoLoading.JSON_parse DemoLoading.toString
             "/repo" ["src"] (JStr "missing.json") "/repo/missing.json"
             (mkFault "ENOENT: no such file or directory")
             eq_refl eq_refl).
Defined.

(** ** Faults and the verdict of a run *)

(** X18.  A rule type that is not registered fails the run whatever the
    level of the rule: in a configuration without [axioms], a rule
    without conditions whose level is not ["off"], be it ["warning"],
    and whose type is not registered gets the ERROR ["<type> is not a
    valid rule"], and the report is not [passed]. *)
Theorem unregistered_rule_fails_run {World : Type}
    (plugin : Call -> World -> Settled Result * World) (turns : nat)
    (allRules allFixes allAxioms : list string) (fileSystem : FileSystem)
    (dryRun : bool) (m : Machine World)
    (rules : list (string * RuleEntry)) (i : nat) (key : string) (cfg : RuleEntry) :
  nth_error rules i = Some (key, cfg) ->
  cfg_level cfg <> "off" ->
  cfg_where cfg = [] ->
  hasOwnProperty allRules (type (cfg_rule cfg)) = false ->
  exists report m' r,
    lint plugin (2 + turns) allRules allFixes allAxioms fileSystem
      (ConfigV2 rules None) dryRun m = Some (Fulfilled report, m')
    /\ nth_error (results report) i
       = Some (CreateError r (type (cfg_rule cfg) ++ " is not a valid rule"))
    /\ name r = key /\ level r = cfg_level cfg
    /\ lint_passed report = false.
Proof.
  intros Hi Hl Hw Hreg.
  set (mk := fun '(name_, cfg) =>
               mkRuleInfo name_ (cfg_level cfg) (cfg_where cfg) (type (cfg_rule cfg))
                 (options (cfg_rule cfg)) (fix_type cfg) (fix_options cfg)
                 (cfg_policyInfo cfg) (cfg_policyUrl cfg)).
  assert (Hcb :
    ruleCallback allRules allFixes fileSystem dryRun (TObject [])
      (targetArray (TObject [])) (mk (key, cfg))
    = Return (CreateError (mk (key, cfg))
                (type (cfg_rule cfg) ++ " is not a valid rule"))).
  { unfold ruleCallback, lintStage, ignoreReasons; simpl.
    apply String.eqb_neq in Hl; now rewrite Hl, Hw, Hreg. }
  destruct (runRuleset_slot plugin allRules allFixes fileSystem dryRun turns
              (map mk rules) (TObject []) m i (mk (key, cfg)) _
              ltac:(now rewrite nth_error_map, Hi) Hcb)
    as (fs & m' & Hrun & Hslot).
  destruct (overallPassed_total fs) as (v & Hv & Hiff).
  assert (v = false) as ->.
  { apply Hiff, Exists_exists; eexists; split;
      [eapply nth_error_In; exact Hslot | now left]. }
  exists (mkLintResult false false fs []), m', (mk (key, cfg)).
  split; [|repeat split; exact Hslot].
  unfold lint; cbn [parseConfig config_axioms]; fold mk.
  now rewrite Hrun, Hv.
Qed.

Lemma unregistered_rule_fails_run_witness :
  let rules :=
    [("license",
      mkRuleEntry "error" [] (mkPluginRef "always-pass" None) None None None);
     ("typo",
      mkRuleEntry "warning" [] (mkPluginRef "file-existance" None) None None None)] in
  exists report m',
    lint Demo.plugin 2 Demo.allRules Demo.allFixes Demo.allAxioms Demo.fs
      (ConfigV2 rules None) false (0, []) = Some (Fulfilled report, m')
    /\ lint_passed report = false.
Proof.
  intros rules.
  destruct (unregistered_rule_fails_run Demo.plugin 0 Demo.allRules Demo.allFixes
              Demo.allAxioms Demo.fs false (0, []) rules 1 "typo"
              (mkRuleEntry "warning" [] (mkPluginRef "file-existance" None)
                 None None None)
              eq_refl ltac:(discriminate) eq_refl eq_refl)
    as (report & m' & r & Hrun & _ & _ & _ & Hpassed).
  exists report, m'; split; [exact Hrun | exact Hpassed].
Defined.

(** X19.  When an axiom plugin faults, the run stops before the rules:
    [lint] rejects with the fault of one of the axiom plugins, and the
    calls it has made are those of the registered axiom plugins only, in
    the order of the entries; no rule plugin and no fix plugin is
    called. *)
Theorem axiom_fault_stops_run {World : Type}
    (plugin : Call -> World -> Settled Result * World) (turns : nat)
    (allRules allFixes allAxioms : list string) (fileSystem : FileSystem)
    (ruleset : Config) (dryRun : bool) (m : Machine World)
    (configParsed : list RuleInfo) (axiomconfig : list (string * string))
    (axiomName : string) (e : Fault) :
  parseConfig ruleset = Fulfilled configParsed ->
  config_axioms ruleset = Some axiomconfig ->
  In (axiomName, Rejected e)
     (fst (axiomOutcomes plugin allAxioms fileSystem axiomconfig m)) ->
  exists e' axiomName' m',
    lint plugin (S turns) allRules allFixes allAxioms fileSystem ruleset dryRun m
      = Some (Rejected e', m')
    /\ In (axiomName', Rejected e')
         (fst (axiomOutcomes plugin allAxioms fileSystem axiomconfig m))
    /\ snd m' = (snd m ++ map (fun axiomId => InvokeAxiom axiomId fileSystem)
                            (filter (hasOwnProperty allAxioms)
                                    (map fst axiomconfig)))%list.
Proof.
  intros Hparse Hax Hin; unfold lint.
  destruct (proj1 (first_fault_In _) (ex_intro _ axiomName (ex_intro _ e Hin)))
    as (e' & Hff).
  destruct (first_fault_member _ _ Hff) as (axiomName' & Hin').
  rewrite Hparse, Hax, determineTargets_outcomes, Hff.
  exists e', axiomName'; eexists; split; [reflexivity|].
  split; [exact Hin' | apply axiomOutcomes_log].
Qed.

Lemma axiom_fault_stops_run_witness :
  let ruleset :=
    ConfigV2
      [("license",
        mkRuleEntry "error" [] (mkPluginRef "always-pass" None) None None None)]
      (Some [("licensee", "license"); ("nope", "packager"); ("linguist", "language")]) in
  exists e' axiomName' m',
    lint Demo.plugin 2 Demo.allRules Demo.allFixes Demo.allAxioms Demo.fs
      ruleset false (0, [])
    = Some (Rejected e', m')
    /\ In (axiomName', Rejected e')
         [("license", Rejected (mkFault "licensee not installed"));
          ("packager", Fulfilled (invalidAxiom "nope"));
          ("language", Fulfilled Demo.languages)]
    /\ snd m' = [InvokeAxiom "licensee" Demo.fs; InvokeAxiom "linguist" Demo.fs].
Proof.
  intros ruleset.
  destruct (axiom_fault_stops_run Demo.plugin 1 Demo.allRules Demo.allFixes
              Demo.allAxioms Demo.fs ruleset false (0, []) _
              [("licensee", "license"); ("nope", "packager"); ("linguist", "language")]
              "license" (mkFault "licensee not installed")
              eq_refl eq_refl (or_introl eq_refl))
    as (e' & axiomName' & m' & Hrun & Hin & Hlog).
  exists e', axiomName', m'; split; [exact Hrun|]; split; [exact Hin | exact Hlog].
Defined.
